(** * Verification of the mass Modern-DSL converter

    A shallow embedding of [mass_convert_modern_dsl.py] and the properties
    of its conversion pipeline: marker detection, the already-modern skip
    test, the backup copy, the template renderer and the run summary.

    Modelling conventions.
    - A Python [str] is the list of its Unicode code points ([N]).
    - The file system is a finite map from path strings to file contents.
      A file's content is its decoded text (UTF-8 is injective, so equal
      texts are equal byte sequences); a file that does not decode is one
      on which reading fails.  Keys are the canonical relative paths that
      [str(lua_file)] produces; symbolic links are not modelled.
    - Reading in text mode applies Python's universal-newline translation;
      writing is the POSIX one, where a line feed is stored as it is.
    - Every file-system operation may fail.  Which ones do, and what a
      failed copy or write leaves behind at its destination, is decided by
      the environment, a function of the whole history of the run.
    - Python exceptions are explicit: computations live in a state and
      exception monad, and [try ... except Exception] is [try_except].
    - A directory exists through the files below it: [d] is a directory
      when some path of the tree continues [d] with a slash; an empty
      directory is not represented.  Copying onto a directory puts the
      copy inside it, as [shutil.copy2] does.  The walk yields the files
      of the tree; a directory whose name ends in [.lua], which the walk
      of the program yields as well, would only add a warning, as it
      cannot be opened.
    - The console accepts every line: [print] itself never raises.  (A
      console that refused a line, say a path that it cannot encode, would
      make the [print] of the exception handler raise as well.) *)

From stdpp Require Import gmap list strings.
From Stdlib Require Import NArith Ascii DecimalString.

Local Open Scope N_scope.

(** ** Text *)

Abbreviation char := N (only parsing).
Abbreviation text := (list N) (only parsing).
Abbreviation path := (list N) (only parsing).

Fixpoint str (s : string) : text :=
  match s with
  | EmptyString => []
  | String a rest => N_of_ascii a :: str rest
  end.

Arguments str : simpl never.

Definition dq : char := 34.          (* the double quote *)
Definition sq : char := 39.          (* the single quote *)
Definition nl : char := 10.          (* line feed *)
Definition cr : char := 13.          (* carriage return *)
Definition rocket : char := 128640.        (* U+1F680 *)
Definition check_mark : char := 9989.      (* U+2705 *)
Definition cross_mark : char := 10060.     (* U+274C *)
Definition arrows : char := 128260.        (* U+1F504 *)
Definition broom : char := 129529.         (* U+1F9F9 *)
Definition memo : char := 128221.          (* U+1F4DD *)
Definition warning_sign : text := [9888; 65039].   (* U+26A0 U+FE0F *)
Definition party : char := 127881.         (* U+1F389 *)
Definition folder : char := 128193.        (* U+1F4C1 *)
Definition books : char := 128218.         (* U+1F4DA *)

(** [s.startswith(needle)] *)
Fixpoint starts_with (needle hay : text) : bool :=
  match needle, hay with
  | [], _ => true
  | _ :: _, [] => false
  | a :: needle', b :: hay' => (a =? b) && starts_with needle' hay'
  end.

(** [needle in hay] on strings: [needle] occurs as a contiguous run. *)
Fixpoint contains (needle hay : text) : bool :=
  starts_with needle hay ||
  match hay with
  | [] => false
  | _ :: hay' => contains needle hay'
  end.

(** The declarative reading of [needle in hay]. *)
Definition occurs_in (needle hay : text) : Prop :=
  ∃ before after, hay = before ++ needle ++ after.

(** A needle without carriage return or line feed. *)
Definition one_line (needle : text) : Prop :=
  Forall (λ c, c ≠ cr ∧ c ≠ nl) needle.

(** [s.endswith(needle)] *)
Definition ends_with (needle hay : text) : bool :=
  starts_with (reverse needle) (reverse hay).

(** [str(n)] for a non-negative integer. *)
Definition show_nat (n : nat) : text :=
  str (NilEmpty.string_of_uint (Nat.to_uint n)).

(** Text-mode reading: [\r\n] and a lone [\r] both become [\n]. *)
Fixpoint universal_newlines (s : text) : text :=
  match s with
  | [] => []
  | c :: rest =>
      if c =? cr then
        nl :: match rest with
              | [] => []
              | d :: rest' =>
                  if d =? nl then universal_newlines rest'
                  else universal_newlines rest
              end
      else c :: universal_newlines rest
  end.

(** ** Paths ([pathlib.PurePosixPath]) *)

(** [s.split(sep)] for a one-character separator. *)
Fixpoint split_on (sep : char) (s : text) : list text :=
  match s with
  | [] => [[]]
  | c :: rest =>
      if c =? sep then [] :: split_on sep rest
      else match split_on sep rest with
           | seg :: segs => (c :: seg) :: segs
           | [] => [[c]]
           end
  end.

(** The components of a path: empty and [.] segments are dropped. *)
Definition path_parts (p : path) : list text :=
  filter (λ seg, seg ≠ [] ∧ seg ≠ str ".") (split_on 47 p).

(** [Path(p).name]: the final component, or the empty string. *)
Definition path_name (p : path) : text := default [] (last (path_parts p)).

(** [s.rfind(c)]: position of the last occurrence. *)
Fixpoint rfind (c : char) (s : text) : option nat :=
  match s with
  | [] => None
  | a :: rest =>
      match rfind c rest with
      | Some i => Some (S i)
      | None => if a =? c then Some 0%nat else None
      end
  end.

(** [Path(p).stem]: the name without its last suffix; a leading or a
    trailing dot does not start a suffix. *)
Definition path_stem (p : path) : text :=
  let name := path_name p in
  match rfind 46 name with
  | Some i =>
      if (0 <? i)%nat && (i <? length name - 1)%nat then take i name else name
  | None => name
  end.

(** ** The description pattern

    The regular expression searched for in the original text is
    [description\s*=\s*Q([^Q]+)Q], where the class [Q] holds the double
    and the single quote. *)

(** [\s] on a [str] pattern: Unicode white space. *)
Definition is_space (c : char) : bool :=
  ((9 <=? c) && (c <=? 13)) || ((28 <=? c) && (c <=? 32)) ||
  (c =? 133) || (c =? 160) || (c =? 5760) ||
  ((8192 <=? c) && (c <=? 8202)) || (c =? 8232) || (c =? 8233) ||
  (c =? 8239) || (c =? 8287) || (c =? 12288).

(** The class [Q]: either quote character. *)
Definition is_quote (c : char) : bool := (c =? dq) || (c =? sq).

Fixpoint strip_prefix (lit s : text) : option text :=
  match lit, s with
  | [], _ => Some s
  | _ :: _, [] => None
  | a :: lit', b :: s' => if a =? b then strip_prefix lit' s' else None
  end.

(** [\s*]: greedy, and nothing after it in the pattern is white space, so
    giving characters back can never help. *)
Fixpoint skip_spaces (s : text) : text :=
  match s with
  | c :: rest => if is_space c then skip_spaces rest else s
  | [] => []
  end.

(** [[^Q]+] up to the next quote: the run and what follows it. *)
Fixpoint span_unquoted (s : text) : text * text :=
  match s with
  | c :: rest =>
      if is_quote c then ([], s)
      else let '(run, tail) := span_unquoted rest in (c :: run, tail)
  | [] => ([], [])
  end.

(** A match of the pattern anchored at the start of [s]: group 1. *)
Definition match_description_at (s : text) : option text :=
  s1 ← strip_prefix (str "description") s;
  match skip_spaces s1 with
  | c :: s2 =>
      if c =? 61 then
        match skip_spaces s2 with
        | q :: s3 =>
            if is_quote q then
              match span_unquoted s3 with
              | ((_ :: _) as run, _ :: _) => Some run
              | _ => None
              end
            else None
        | [] => None
        end
      else None
  | [] => None
  end.

(** [re.search]: the leftmost position at which the pattern matches. *)
Fixpoint search_description (s : text) : option text :=
  match match_description_at s with
  | Some run => Some run
  | None =>
      match s with
      | [] => None
      | _ :: rest => search_description rest
      end
  end.

(** What the pattern means: the text [s] begins with the word, optional
    white space, an equals sign, optional white space, a quote, a non-empty
    run free of quotes (group 1) and a quote. *)
Definition description_match (s run : text) : Prop :=
  ∃ ws1 ws2 q1 q2 rest,
    s = str "description" ++ ws1 ++ [61] ++ ws2 ++ [q1] ++ run ++ [q2] ++ rest ∧
    Forall (λ c, is_space c = true) ws1 ∧
    Forall (λ c, is_space c = true) ws2 ∧
    is_quote q1 = true ∧ is_quote q2 = true ∧
    run ≠ [] ∧ Forall (λ c, is_quote c = false) run.

(** The pattern matches nowhere in [s]. *)
Definition no_description (s : text) : Prop :=
  ∀ before after run, s = before ++ after → ¬ description_match after run.

(** The leftmost match in [s] starts after [before] and captures [run]. *)
Definition first_description (s before run : text) : Prop :=
  ∃ after,
    s = before ++ after ∧ description_match after run ∧
    ∀ b1 b2 other, before = b1 ++ b2 → b2 ≠ [] →
      ¬ description_match (b2 ++ after) other.

(** ** The template renderer *)

Definition default_description (file_name : text) : text :=
  str "Modern DSL version of " ++ file_name.

Definition extract_description (file_name original_content : text) : text :=
  match search_description original_content with
  | Some found => found
  | None => default_description file_name
  end.

(** The category and complexity chosen from the path. *)
Definition classify (original_file_path : path) : text * text :=
  if contains (str "beginner") original_file_path then
    (str "beginner", str "simple")
  else if contains (str "intermediate") original_file_path then
    (str "intermediate", str "moderate")
  else if contains (str "advanced") original_file_path then
    (str "advanced", str "complex")
  else
    (str "general", str "basic").

(** The fixed table the pair is drawn from. *)
Definition classification_table : list (text * text) :=
  [ (str "beginner", str "simple");
    (str "intermediate", str "moderate");
    (str "advanced", str "complex");
    (str "general", str "basic") ].

Definition template_lines
    (original_file_path : path) (file_name description category complexity : text)
    : list text :=
  [
    str "-- MODERN DSL ONLY - " ++ description;
    str "-- Converted from legacy TaskDefinition format";
    str "-- Category: " ++ category ++ str ", Complexity: " ++ complexity;
    [];
    str "-- Main task using Modern DSL";
    str "local main_task = task(" ++ [dq] ++ file_name ++ str "_task" ++ [dq] ++ str ")";
    str "    :description(" ++ [dq] ++ description ++ [dq] ++ str ")";
    str "    :command(function(params, deps)";
    str "        log.info(" ++ [dq] ++ [rocket] ++ str " Executing " ++ file_name
      ++ str " with Modern DSL..." ++ [dq] ++ str ")";
    str "        ";
    str "        -- TODO: Replace with actual implementation from original file";
    str "        -- Original logic should be migrated here";
    str "        ";
    str "        return true, " ++ [dq] ++ str "Task completed successfully" ++ [dq]
      ++ str ", {";
    str "            task_name = " ++ [dq] ++ file_name ++ [dq] ++ str ",";
    str "            execution_time = os.time(),";
    str "            status = " ++ [dq] ++ str "success" ++ [dq];
    str "        }";
    str "    end)";
    str "    :timeout(" ++ [dq] ++ str "5m" ++ [dq] ++ str ")";
    str "    :retries(2, " ++ [dq] ++ str "exponential" ++ [dq] ++ str ")";
    str "    :on_success(function(params, output)";
    str "        log.info(" ++ [dq] ++ [check_mark] ++ str " " ++ file_name
      ++ str " task completed successfully" ++ [dq] ++ str ")";
    str "    end)";
    str "    :on_failure(function(params, error)";
    str "        log.error(" ++ [dq] ++ [cross_mark] ++ str " " ++ file_name
      ++ str " task failed: " ++ [dq] ++ str " .. error)";
    str "    end)";
    str "    :build()";
    [];
    str "-- Additional tasks can be added here following the same pattern";
    str "-- local secondary_task = task(" ++ [dq] ++ file_name ++ str "_secondary" ++ [dq]
      ++ str ")";
    str "--     :description(" ++ [dq] ++ str "Secondary task for " ++ file_name ++ [dq]
      ++ str ")";
    str "--     :depends_on({" ++ [dq] ++ file_name ++ str "_task" ++ [dq] ++ str "})";
    str "--     :command(function(params, deps)";
    str "--         -- Secondary logic here";
    str "--         return true, " ++ [dq] ++ str "Secondary task completed" ++ [dq]
      ++ str ", {}";
    str "--     end)";
    str "--     :build()";
    [];
    str "-- Modern Workflow Definition";
    str "workflow.define(" ++ [dq] ++ file_name ++ str "_workflow" ++ [dq] ++ str ", {";
    str "    description = " ++ [dq] ++ description ++ str " - Modern DSL" ++ [dq] ++ str ",";
    str "    version = " ++ [dq] ++ str "2.0.0" ++ [dq] ++ str ",";
    str "    ";
    str "    metadata = {";
    str "        author = " ++ [dq] ++ str "Sloth Runner Team" ++ [dq] ++ str ",";
    str "        category = " ++ [dq] ++ category ++ [dq] ++ str ",";
    str "        complexity = " ++ [dq] ++ complexity ++ [dq] ++ str ",";
    str "        tags = {" ++ [dq] ++ file_name ++ [dq] ++ str ", " ++ [dq]
      ++ str "modern-dsl" ++ [dq] ++ str ", " ++ [dq] ++ category ++ [dq] ++ str "},";
    str "        created_at = os.date(),";
    str "        migrated_from = " ++ [dq] ++ str "TaskDefinition format" ++ [dq];
    str "    },";
    str "    ";
    str "    tasks = {";
    str "        main_task";
    str "        -- Add additional tasks here";
    str "    },";
    str "    ";
    str "    config = {";
    str "        timeout = " ++ [dq] ++ str "15m" ++ [dq] ++ str ",";
    str "        retry_policy = " ++ [dq] ++ str "exponential" ++ [dq] ++ str ",";
    str "        max_parallel_tasks = 2,";
    str "        cleanup_on_failure = true";
    str "    },";
    str "    ";
    str "    on_start = function()";
    str "        log.info(" ++ [dq] ++ [rocket] ++ str " Starting " ++ file_name
      ++ str " workflow..." ++ [dq] ++ str ")";
    str "        return true";
    str "    end,";
    str "    ";
    str "    on_complete = function(success, results)";
    str "        if success then";
    str "            log.info(" ++ [dq] ++ [check_mark] ++ str " " ++ file_name
      ++ str " workflow completed successfully!" ++ [dq] ++ str ")";
    str "        else";
    str "            log.error(" ++ [dq] ++ [cross_mark] ++ str " " ++ file_name
      ++ str " workflow failed!" ++ [dq] ++ str ")";
    str "        end";
    str "        return true";
    str "    end";
    str "})";
    [];
    str "-- Migration Note:";
    str "-- This file has been converted from legacy TaskDefinition format to Modern DSL";
    str "-- TODO: Review and implement the original logic in the Modern DSL structure above";
    str "-- Original backup saved as " ++ path_name original_file_path ++ str ".backup"
  ].

(** Every line of the literal, the last one included, ends in a line feed. *)
Definition unlines (ls : list text) : text := flat_map (λ l, l ++ [nl]) ls.

Definition create_modern_dsl_template
    (original_file_path : path) (original_content : text) : text :=
  let file_name := path_stem original_file_path in
  let description := extract_description file_name original_content in
  let '(category, complexity) := classify original_file_path in
  unlines (template_lines original_file_path file_name description
             category complexity).

(** Where the derived description appears in the rendered template. *)
Definition carries_description (rendered X : text) : Prop :=
  occurs_in (str "-- MODERN DSL ONLY - " ++ X ++ [nl]) rendered ∧
  occurs_in (str "    :description(" ++ [dq] ++ X ++ [dq] ++ str ")" ++ [nl])
    rendered ∧
  occurs_in (str "    description = " ++ [dq] ++ X ++ str " - Modern DSL" ++
             [dq] ++ str "," ++ [nl]) rendered.

(** ** The world: files, the operations performed, the console *)

Inductive op :=
  | OpRead (p : path)
  | OpCopy (src dst : path)
  | OpWrite (p : path) (data : text).

(** What happened to an attempted operation. *)
Inductive event :=
  | Done (o : op)
  | Failed (o : op).

(** A failure: the exception's message, and what the failed operation left
    at its destination ([None]: it never touched it). *)
Record fault := Fault { fault_msg : text; fault_residue : option text }.

(** The console is the list of the texts printed, one for each call of
    [print]; a text may hold several lines. *)
Record world := World {
  files : gmap path text;
  trace : list event;
  stdout : list text
}.

Inductive exn := OSError (message : text).

Inductive res (A : Type) :=
  | Ok (a : A)
  | Raise (e : exn).
Arguments Ok {A} a.
Arguments Raise {A} e.

(** A computation: it reads and changes the world and either returns or
    raises. *)
Definition M (A : Type) : Type := world → res A * world.

#[global] Instance M_ret : MRet M := λ A a w, (Ok a, w).

#[global] Instance M_bind : MBind M := λ A B f m w,
  match m w with
  | (Ok a, w') => f a w'
  | (Raise e, w') => (Raise e, w')
  end.

(** [try: body except Exception as e: handler(e)] *)
Definition try_except {A} (body : M A) (handler : exn → M A) : M A := λ w,
  match body w with
  | (Ok a, w') => (Ok a, w')
  | (Raise e, w') => handler e w'
  end.

(** [for x in xs: s = body(x, s)] *)
Fixpoint for_each {A S} (xs : list A) (body : A → S → M S) (s : S) : M S :=
  match xs with
  | [] => mret s
  | x :: rest => s' ← body x s; for_each rest body s'
  end.

Definition log (e : event) (w : world) : world :=
  World (files w) (trace w ++ [e]) (stdout w).

Definition store (p : path) (c : text) (w : world) : world :=
  World (<[p := c]> (files w)) (trace w) (stdout w).

Definition leave (p : path) (residue : option text) (w : world) : world :=
  match residue with
  | Some r => store p r w
  | None => w
  end.

(** The path an event's call names as its destination.  A copy whose
    destination is a directory writes below that path. *)
Definition target (e : event) : option path :=
  match e with
  | Done (OpCopy _ dst) | Failed (OpCopy _ dst) => Some dst
  | Done (OpWrite p _) | Failed (OpWrite p _) => Some p
  | Done (OpRead _) | Failed (OpRead _) => None
  end.

Definition no_such_file (p : path) : exn :=
  OSError (str "[Errno 2] No such file or directory: '" ++ p ++ str "'").

Definition same_file (src dst : path) : exn :=
  OSError (str "'" ++ src ++ str "' and '" ++ dst ++ str "' are the same file").

Definition is_a_directory (p : path) : exn :=
  OSError (str "[Errno 21] Is a directory: '" ++ p ++ str "'").

Definition say (line : text) (w : world) : world :=
  World (files w) (trace w) (stdout w ++ [line]).

(** [print(line)] *)
Definition print (line : text) : M unit := λ w, (Ok tt, say line w).

(** ** Console lines *)

Definition line_start : text :=
  [broom] ++ str " Starting mass conversion to Modern DSL...".

Definition line_read_error (lua_file : path) (e : exn) : text :=
  let 'OSError msg := e in
  warning_sign ++ str "  Error reading " ++ lua_file ++ str ": " ++ msg.

Definition line_found (n : nat) : text :=
  [memo] ++ str " Found " ++ show_nat n ++ str " files to convert".

Definition line_nothing : text :=
  [check_mark] ++ str " No files need conversion!".

Definition line_already_modern (file_path : path) : text :=
  [check_mark] ++ str " Already modern: " ++ file_path.

Definition line_converted (file_path : path) : text :=
  [arrows] ++ str " Converted: " ++ file_path.

Definition line_error (file_path : path) (e : exn) : text :=
  let 'OSError msg := e in
  [cross_mark] ++ str " Error converting " ++ file_path ++ str ": " ++ msg.

Definition summary (converted failed total : nat) : text :=
  unlines [
    [];
    [party] ++ str " Conversion Summary:";
    [check_mark] ++ str " Converted: " ++ show_nat converted ++ str " files";
    [cross_mark] ++ str " Failed: " ++ show_nat failed ++ str " files";
    [folder] ++ str " Total processed: " ++ show_nat total ++ str " files";
    [];
    [books] ++ str " Next steps:";
    str "1. Review converted files and implement original logic";
    str "2. Test the workflows with: ./sloth-runner run -f <file>";
    str "3. Update documentation if needed";
    str "4. Remove .backup files when satisfied with conversion"
  ].

(** ** The skip test and the detector's test *)

Definition already_modern (original_content : text) : bool :=
  contains (str "task(") original_content &&
  negb (contains (str "TaskDefinition") original_content).

Definition is_legacy (content : text) : bool :=
  contains (str "TaskDefinition") content ||
  contains (str "task_definition") content.

Definition backup_of (file_path : path) : path := file_path ++ str ".backup".

(** The path [k] lies below the directory [d]. *)
Definition below (d k : path) : Prop := ∃ rest, k = d ++ 47 :: rest.

(** [os.path.isdir(d)]: some file of the tree lies below [d]. *)
Definition is_dir (fs : gmap path text) (d : path) : bool :=
  existsb (starts_with (d ++ [47])) (map_to_list fs).*1.

(** Where [shutil.copy2(src, dst)] writes: to [dst], or, when [dst] is a
    directory, to [os.path.join(dst, os.path.basename(src))], the file of
    the source's name inside it. *)
Definition landing (fs : gmap path text) (src dst : path) : path :=
  if is_dir fs dst then dst ++ 47 :: path_name src else dst.

(** [examples_dir.rglob] pattern: a path below [examples] whose name ends
    in [.lua]. *)
Definition in_examples (p : path) : bool := starts_with (str "examples/") p.
Definition is_lua (p : path) : bool := ends_with (str ".lua") p.

(** ** The program *)

Section Program.

(** The environment decides which operations fail, from the whole state
    of the run so far. *)
Variable env : world → op → option fault.

(** The order in which the directory walk yields the files. *)
Variable listing : gmap path text → list path.

(** [open(p, 'r', encoding='utf-8').read()] *)
Definition read_text (p : path) : M text := λ w,
  match files w !! p with
  | None => (Raise (no_such_file p), log (Failed (OpRead p)) w)
  | Some c =>
      match env w (OpRead p) with
      | Some f => (Raise (OSError (fault_msg f)), log (Failed (OpRead p)) w)
      | None => (Ok (universal_newlines c), log (Done (OpRead p)) w)
      end
  end.

(** [shutil.copy2(src, dst)].  The copy goes to [dst], or into [dst] when
    that is a directory; a file already there is replaced, a directory
    there makes the copy fail.  A copy that fails for a reason of the
    environment leaves its residue at the place it was writing to. *)
Definition copy2 (src dst : path) : M unit := λ w,
  match files w !! src with
  | None => (Raise (no_such_file src), log (Failed (OpCopy src dst)) w)
  | Some c =>
      let place := landing (files w) src dst in
      if decide (src = place) then
        (Raise (same_file src place), log (Failed (OpCopy src dst)) w)
      else
        match env w (OpCopy src dst) with
        | Some f =>
            (Raise (OSError (fault_msg f)),
             log (Failed (OpCopy src dst))
               (leave place
                  (if is_dir (files w) place then None else fault_residue f) w))
        | None =>
            if is_dir (files w) place then
              (Raise (is_a_directory place), log (Failed (OpCopy src dst)) w)
            else (Ok tt, log (Done (OpCopy src dst)) (store place c w))
        end
  end.

(** [open(p, 'w', encoding='utf-8').write(data)]: the whole content is
    replaced. *)
Definition write_text (p : path) (data : text) : M unit := λ w,
  match env w (OpWrite p data) with
  | Some f =>
      (Raise (OSError (fault_msg f)),
       log (Failed (OpWrite p data)) (leave p (fault_residue f) w))
  | None => (Ok tt, log (Done (OpWrite p data)) (store p data w))
  end.

(** The body of the [try] in [convert_file_to_modern_dsl]. *)
Definition convert_body (file_path : path) : M bool :=
  original_content ← read_text file_path;
  if already_modern original_content then
    print (line_already_modern file_path);;
    mret true
  else
    let backup_path := backup_of file_path in
    copy2 file_path backup_path;;
    let modern_content :=
      create_modern_dsl_template file_path original_content in
    write_text file_path modern_content;;
    print (line_converted file_path);;
    mret true.

Definition convert_file_to_modern_dsl (file_path : path) : M bool :=
  try_except (convert_body file_path)
    (λ e, print (line_error file_path e);; mret false).

(** One round of the detection loop. *)
Definition detect (lua_file : path) (lua_files : list path) : M (list path) :=
  try_except
    (content ← read_text lua_file;
     if is_legacy content then mret (lua_files ++ [lua_file])
     else mret lua_files)
    (λ e, print (line_read_error lua_file e);; mret lua_files).

(** [examples_dir.rglob("*.lua")].  The walk is lazy in Python; the
    detection loop writes nothing, so all of it can be taken up front. *)
Definition rglob : M (list path) := λ w,
  (Ok (filter (λ p, in_examples p && is_lua p) (listing (files w))), w).

(** One round of the conversion loop, on the two counters. *)
Definition tally (file_path : path) (counts : nat * nat) : M (nat * nat) :=
  let '(converted, failed) := counts in
  ok ← convert_file_to_modern_dsl file_path;
  if (ok : bool) then mret (converted + 1, failed)%nat
  else mret (converted, failed + 1)%nat.

Definition main : M unit :=
  print line_start;;
  found ← rglob;
  lua_files ← for_each found detect [];
  print (line_found (length lua_files));;
  match lua_files with
  | [] => print line_nothing
  | _ :: _ =>
      '(converted, failed) ← for_each lua_files tally (0, 0)%nat;
      print (summary converted failed (length lua_files))
  end.

End Program.

(** A fresh process on a directory tree. *)
Definition boot (fs : gmap path text) : world := World fs [] [].

(** The directory walk yields every file of the tree once. *)
Definition faithful (listing : gmap path text → list path) : Prop :=
  ∀ fs, NoDup (listing fs) ∧ ∀ p, p ∈ listing fs ↔ is_Some (fs !! p).

(** The list [lua_files] that [main] has built when its first loop ends,
    in a fresh process on the tree [fs]. *)
Definition candidates (env : world → op → option fault)
    (listing : gmap path text → list path) (fs : gmap path text) : list path :=
  match (print line_start;; found ← rglob listing; for_each found (detect env) [])
          (boot fs) with
  | (Ok lua_files, _) => lua_files
  | (Raise _, _) => []
  end.

(** The console line [line] is the report of the conversion of [p]. *)
Definition about (p : path) (line : text) : Prop :=
  line = line_converted p ∨ line = line_already_modern p ∨
  ∃ e, line = line_error p e.


(** No file of the tree lies below the backup path of one of the files
    [ps]: none of these backup paths is a directory. *)
Definition clear (fs : gmap path text) (ps : list path) : Prop :=
  ∀ q k, q ∈ ps → is_Some (fs !! k) → ¬ below (backup_of q) k.


(** From [w] to [w'] nothing was written: only reads, and warnings. *)
Definition quiet (w w' : world) : Prop :=
  files w' = files w ∧
  ∃ t lines,
    trace w' = trace w ++ t ∧ Forall (λ e, target e = None) t ∧
    stdout w' = stdout w ++ lines ∧
    Forall (λ l, ∃ p e, l = line_read_error p e) lines.

(** The environment in which nothing fails, and one directory order. *)
Definition calm : world → op → option fault := λ _ _, None.
Definition key_order (fs : gmap path text) : list path := (map_to_list fs).*1.

(** ** Sample trees and environments *)

(** A legacy file, and the tree that holds only it. *)
Definition hello : path := str "examples/beginner/hello.lua".
Definition legacy_text : text := str "TaskDefinition{ description = 'Say hello' }".
Definition legacy_tree : gmap path text := {[ hello := legacy_text ]}.

(** A tree without any legacy file: a modern script, and a file outside
    [examples] that the walk never sees. *)
Definition modern_tree : gmap path text :=
  <[ str "examples/ok.lua" := str "local t = task(1)" ]>
    {[ str "README.md" := str "about TaskDefinition" ]}.

(** A file that the detector selects and the converter skips. *)
Definition mixed : path := str "examples/mixed.lua".
Definition mixed_text : text := str "local task_definition = task(1)".
Definition mixed_tree : gmap path text := {[ mixed := mixed_text ]}.

(** A legacy file next to a file that sits at its backup path, and a
    legacy file outside [examples]. *)
Definition notes : text := str "my notes".
Definition crowded_tree : gmap path text :=
  <[ hello := legacy_text ]>
    (<[ backup_of hello := notes ]>
       {[ str "docs/old.lua" := str "TaskDefinition{}" ]}).

(** A legacy file whose backup path is taken by a directory. *)
Definition kept : path := backup_of hello ++ str "/keep.txt".
Definition directory_tree : gmap path text :=
  <[ hello := legacy_text ]> {[ kept := notes ]}.

(** A legacy file and, inside the directory at its backup path, a file of
    the same name that passes the skip test. *)
Definition outer : path := str "examples/a.lua".
Definition inner : path := backup_of outer ++ str "/a.lua".

(** An environment in which every copy fails before it writes anything. *)
Definition disk_full : world → op → option fault := λ _ o,
  match o with
  | OpCopy _ _ => Some (Fault (str "[Errno 28] No space left on device") None)
  | _ => None
  end.

(** Two legacy files, the second inside the directory at the backup path
    of the first, whose description holds the task marker. *)
Definition twin_tree : gmap path text :=
  <[ outer := str "TaskDefinition{ description = 'task(1)' }" ]>
    {[ inner := legacy_text ]}.

(** An environment in which every copy stops after 28 characters. *)
Definition cut_short : world → op → option fault := λ w o,
  match o with
  | OpCopy src _ =>
      Some (Fault (str "[Errno 28] No space left on device")
              (take 28 <$> files w !! src))
  | _ => None
  end.

(** Two runs in a row, each a fresh process. *)
Definition first_run (fs : gmap path text) : world :=
  (main calm key_order (boot fs)).2.
Definition second_run (fs : gmap path text) : world :=
  (main calm key_order (boot (files (first_run fs)))).2.

(** ** Reading the console *)

(** The printed text begins with the glyph [c]. *)
Definition headed (c : char) (line : text) : bool :=
  match line with
  | first :: _ => first =? c
  | [] => false
  end.

(** How many of the printed texts begin with the glyph [c].  The summary
    is one text that begins with a line feed: the glyphs on its second
    and later lines are not counted. *)
Definition count_headed (c : char) (lines : list text) : nat :=
  length (filter (λ line, headed c line) lines).



(** * Facts about text *)

Section TextFacts.

Implicit Types (needle hay s : text) (c : char).

Lemma starts_with_spec needle hay :
  starts_with needle hay = true ↔ ∃ rest, hay = needle ++ rest.
Proof.
  revert hay. induction needle as [|a needle IH]; intros hay; simpl.
  - split; eauto.
  - destruct hay as [|b hay].
    + split; [done | intros [rest Hrest]; discriminate].
    + rewrite andb_true_iff, N.eqb_eq, IH. split.
      * intros [-> [rest ->]]. eauto.
      * intros [rest [= -> ->]]. eauto.
Qed.

Lemma contains_spec needle hay :
  contains needle hay = true ↔ occurs_in needle hay.
Proof.
  unfold occurs_in. induction hay as [|b hay IH]; simpl.
  - rewrite orb_false_r, starts_with_spec. split.
    + intros [rest Hrest]. exists [], rest. done.
    + intros (before & after & Heq). symmetry in Heq.
      apply app_eq_nil in Heq as [-> Heq]. apply app_eq_nil in Heq as [-> ->].
      exists []. done.
  - rewrite orb_true_iff, starts_with_spec, IH. split.
    + intros [[rest ->] | (before & after & ->)].
      * exists [], rest. done.
      * exists (b :: before), after. done.
    + intros (before & after & Heq). destruct before as [|b' before].
      * left. exists after. done.
      * right. injection Heq as -> ->. eauto.
Qed.

Lemma contains_false needle hay :
  contains needle hay = false ↔ ¬ occurs_in needle hay.
Proof. rewrite <- contains_spec. destruct (contains needle hay); naive_solver. Qed.

Lemma occurs_in_refl s : occurs_in s s.
Proof. exists [], []. by rewrite app_nil_r. Qed.

Lemma occurs_in_app_l needle s1 s2 : occurs_in needle s1 → occurs_in needle (s1 ++ s2).
Proof.
  intros (before & after & ->). exists before, (after ++ s2).
  by rewrite <- !app_assoc.
Qed.

Lemma occurs_in_app_r needle s1 s2 : occurs_in needle s2 → occurs_in needle (s1 ++ s2).
Proof.
  intros (before & after & ->). exists (s1 ++ before), after.
  by rewrite <- !app_assoc.
Qed.

Lemma occurs_in_trans s1 s2 s3 : occurs_in s1 s2 → occurs_in s2 s3 → occurs_in s1 s3.
Proof.
  intros (b1 & a1 & ->) (b2 & a2 & ->). exists (b2 ++ b1), (a1 ++ a2).
  by rewrite <- !app_assoc.
Qed.

Lemma occurs_in_unlines needle line lines :
  line ∈ lines → occurs_in needle line → occurs_in needle (unlines lines).
Proof.
  intros Hin Hocc. induction lines as [|first lines IH]; simpl.
  - by apply elem_of_nil in Hin.
  - apply elem_of_cons in Hin as [<- | Hin].
    + by apply occurs_in_app_l, occurs_in_app_l.
    + by apply occurs_in_app_r, IH.
Qed.





Lemma backup_of_ne_self p : backup_of p ≠ p.
Proof.
  unfold backup_of. intros Heq. apply (f_equal length) in Heq.
  rewrite length_app in Heq. simpl in Heq. lia.
Qed.


End TextFacts.

(** ** Reading in text mode keeps every occurrence of a one-line needle *)

Section Newlines.

Lemma starts_with_universal_newlines needle s :
  one_line needle →
  starts_with needle (universal_newlines s) = starts_with needle s.
Proof.
  intros Hplain. revert s.
  induction Hplain as [|a needle [Hcr Hnl] _ IH]; intros s; [done|].
  destruct s as [|d rest]; [done|].
  cbn [universal_newlines]. destruct (N.eqb_spec d cr) as [->|Hd].
  - cbn [starts_with].
    destruct (N.eqb_spec a nl); [done|]. by destruct (N.eqb_spec a cr).
  - cbn [starts_with]. by rewrite IH.
Qed.

Lemma starts_with_newline needle s :
  one_line needle → needle ≠ [] → starts_with needle (nl :: s) = false.
Proof.
  intros Hplain Hne. destruct Hplain as [|a needle [_ Hnl] _]; [done|].
  cbn [starts_with]. by destruct (N.eqb_spec a nl).
Qed.

Lemma starts_with_return needle s :
  one_line needle → needle ≠ [] → starts_with needle (cr :: s) = false.
Proof.
  intros Hplain Hne. destruct Hplain as [|a needle [Hcr _] _]; [done|].
  cbn [starts_with]. by destruct (N.eqb_spec a cr).
Qed.

Lemma contains_universal_newlines needle s :
  one_line needle → needle ≠ [] →
  contains needle (universal_newlines s) = contains needle s.
Proof.
  intros Hplain Hne.
  remember (length s) as n eqn:Hn. revert s Hn.
  induction n as [n IH] using lt_wf_ind. intros s ->.
  destruct s as [|c rest]; [done|].
  cbn [universal_newlines]. destruct (N.eqb_spec c cr) as [->|Hc].
  - cbn [contains]. rewrite starts_with_newline, starts_with_return by done.
    cbn [orb]. destruct rest as [|d rest']; [done|].
    destruct (N.eqb_spec d nl) as [->|Hd].
    + rewrite (IH (length rest')) by (simpl; lia || done).
      cbn [contains]. by rewrite starts_with_newline.
    + apply (IH (length (d :: rest'))); simpl; lia || done.
  - cbn [contains].
    rewrite <- (starts_with_universal_newlines needle (c :: rest)) by done.
    cbn [universal_newlines]. destruct (N.eqb_spec c cr); [done|].
    f_equal. apply (IH (length rest)); simpl; lia || done.
Qed.

End Newlines.

(** * The description pattern *)

Section Pattern.

Lemma strip_prefix_spec lit s rest :
  strip_prefix lit s = Some rest ↔ s = lit ++ rest.
Proof.
  revert s. induction lit as [|a lit IH]; intros s; simpl.
  - split; congruence.
  - destruct s as [|b s]; [split; discriminate|].
    destruct (N.eqb_spec a b) as [->|Hab].
    + rewrite IH. split; congruence.
    + split; congruence.
Qed.

Lemma skip_spaces_app ws rest :
  Forall (λ c, is_space c = true) ws →
  skip_spaces (ws ++ rest) = skip_spaces rest.
Proof. intros Hws. induction Hws as [|c ws Hc _ IH]; simpl; [done|]. by rewrite Hc. Qed.

Lemma skip_spaces_stop c rest : is_space c = false → skip_spaces (c :: rest) = c :: rest.
Proof. intros Hc. simpl. by rewrite Hc. Qed.

Lemma skip_spaces_split s :
  ∃ ws, s = ws ++ skip_spaces s ∧ Forall (λ c, is_space c = true) ws.
Proof.
  induction s as [|c s (ws & Hs & Hws)]; simpl.
  - by exists [].
  - destruct (is_space c) eqn:Hc.
    + exists (c :: ws). split; [simpl; by f_equal | by constructor].
    + by exists [].
Qed.

Lemma span_unquoted_app run q rest :
  Forall (λ c, is_quote c = false) run → is_quote q = true →
  span_unquoted (run ++ q :: rest) = (run, q :: rest).
Proof.
  intros Hrun Hq. induction Hrun as [|c run Hc _ IH]; simpl.
  - by rewrite Hq.
  - by rewrite Hc, IH.
Qed.

Lemma span_unquoted_split s run tail :
  span_unquoted s = (run, tail) →
  s = run ++ tail ∧ Forall (λ c, is_quote c = false) run ∧
  (tail = [] ∨ ∃ q rest, tail = q :: rest ∧ is_quote q = true).
Proof.
  revert run tail. induction s as [|c s IH]; intros run tail; simpl.
  - intros [= <- <-]. auto.
  - destruct (is_quote c) eqn:Hc.
    + intros [= <- <-]. split_and!; [done | done | right; eauto].
    + destruct (span_unquoted s) as [run' tail'].
      intros [= <- <-]. destruct (IH _ _ eq_refl) as (-> & Hrun & Htail).
      split_and!; [done | by constructor | done].
Qed.

Lemma quote_not_space q : is_quote q = true → is_space q = false.
Proof.
  unfold is_quote, dq, sq. rewrite orb_true_iff, !N.eqb_eq. by intros [-> | ->].
Qed.

(** The anchored matcher computes exactly the matches of the pattern. *)
Lemma match_description_at_spec s run :
  match_description_at s = Some run ↔ description_match s run.
Proof.
  unfold match_description_at, description_match. split.
  - destruct (strip_prefix _ s) as [s1|] eqn:Hs1; [|done]. cbn [mbind option_bind].
    apply strip_prefix_spec in Hs1 as ->.
    destruct (skip_spaces_split s1) as (ws1 & Hs1 & Hws1).
    destruct (skip_spaces s1) as [|c s2]; [done|].
    destruct (N.eqb_spec c 61) as [->|]; [|done].
    destruct (skip_spaces_split s2) as (ws2 & Hs2 & Hws2).
    destruct (skip_spaces s2) as [|q1 s3]; [done|].
    destruct (is_quote q1) eqn:Hq1; [|done].
    destruct (span_unquoted s3) as [found tail] eqn:Hspan.
    apply span_unquoted_split in Hspan as (-> & Hfound & Htail).
    destruct found as [|c found]; [done|]. destruct tail as [|q2 rest]; [done|].
    intros [= <-]. destruct Htail as [|(? & ? & [= <- <-] & Hq2)]; [done|].
    exists ws1, ws2, q1, q2, rest. rewrite Hs1, Hs2.
    split_and!; done.
  - intros (ws1 & ws2 & q1 & q2 & rest & -> & Hws1 & Hws2 & Hq1 & Hq2 & Hne & Hrun).
    rewrite (proj2 (strip_prefix_spec _ _ _) eq_refl). cbn [mbind option_bind].
    rewrite skip_spaces_app by done. cbn [app].
    rewrite skip_spaces_stop, N.eqb_refl by done.
    rewrite skip_spaces_app by done. cbn [app].
    rewrite skip_spaces_stop by (by apply quote_not_space).
    rewrite Hq1, span_unquoted_app by done.
    by destruct run.
Qed.

Lemma description_match_unique s run1 run2 :
  description_match s run1 → description_match s run2 → run1 = run2.
Proof. rewrite <- !match_description_at_spec. congruence. Qed.

(** [re.search] returns group 1 of the leftmost match ... *)
Lemma search_description_first s before run :
  first_description s before run → search_description s = Some run.
Proof.
  intros (after & -> & Hmatch & Hleft).
  induction before as [|c before IH].
  - apply match_description_at_spec in Hmatch.
    destruct after; cbn [app search_description]; by rewrite Hmatch.
  - cbn [app search_description].
    destruct (match_description_at (c :: before ++ after)) as [other|] eqn:Hother.
    + apply match_description_at_spec in Hother.
      by destruct (Hleft [] (c :: before) other).
    + apply IH. intros b1 b2 other -> Hb2.
      by apply (Hleft (c :: b1) b2 other).
Qed.

(** ... and [None] when the pattern matches nowhere. *)
Lemma search_description_none s :
  no_description s → search_description s = None.
Proof.
  unfold no_description. intros Hno. induction s as [|c s IH].
  - cbn [search_description].
    destruct (match_description_at []) as [run|] eqn:Hrun; [|done].
    apply match_description_at_spec in Hrun. by destruct (Hno [] [] run).
  - cbn [search_description].
    destruct (match_description_at (c :: s)) as [run|] eqn:Hrun.
    + apply match_description_at_spec in Hrun. by destruct (Hno [] (c :: s) run).
    + apply IH. intros before after run ->. by apply (Hno (c :: before) after run).
Qed.

Lemma search_description_none_sound s :
  search_description s = None → no_description s.
Proof.
  intros Hnone before after run -> Hmatch.
  induction before as [|c before IH].
  - apply match_description_at_spec in Hmatch.
    destruct after; cbn [app search_description] in Hnone; by rewrite Hmatch in Hnone.
  - apply IH. cbn [app search_description] in Hnone.
    by destruct (match_description_at (c :: before ++ after)).
Qed.

(** Conversely, whatever [re.search] returns is the leftmost match. *)
Lemma search_description_sound s run :
  search_description s = Some run → ∃ before, first_description s before run.
Proof.
  induction s as [|c s IH].
  - cbn [search_description].
    destruct (match_description_at []) as [found|] eqn:Hfound; [|done].
    intros [= ->]. apply match_description_at_spec in Hfound.
    exists [], []. split_and!; [done | done |]. intros [|??] [|??]; naive_solver.
  - cbn [search_description].
    destruct (match_description_at (c :: s)) as [found|] eqn:Hfound.
    + intros [= ->]. apply match_description_at_spec in Hfound.
      exists [], (c :: s). split_and!; [done | done |]. intros [|??] [|??]; naive_solver.
    + intros (before & after & -> & Hmatch & Hleft)%IH.
      exists (c :: before), after. split_and!; [done | done |].
      intros b1 b2 other Heq Hb2 Hother. destruct b1 as [|c' b1].
      * simpl in Heq. subst b2. apply match_description_at_spec in Hother.
        simpl in Hother. congruence.
      * injection Heq as -> ->. by apply (Hleft b1 b2 other).
Qed.

End Pattern.

(** * Directories *)

Section Directories.

Implicit Types (fs : gmap path text) (d k p q : path) (ps qs : list path).

Lemma is_dir_spec fs d :
  is_dir fs d = true ↔ ∃ k, is_Some (fs !! k) ∧ below d k.
Proof.
  unfold is_dir, below. rewrite existsb_exists. split.
  - intros (k & Hin & Hk). apply list_elem_of_In in Hin.
    apply list_elem_of_fmap in Hin as ([k' c] & -> & Hin).
    apply elem_of_map_to_list in Hin. apply starts_with_spec in Hk as [rest Hk].
    exists k'. split; [by exists c|]. exists rest.
    simpl in Hk. by rewrite <- app_assoc in Hk.
  - intros (k & [c Hc] & rest & ->). exists (d ++ 47 :: rest). split.
    + apply list_elem_of_In, list_elem_of_fmap. exists (d ++ 47 :: rest, c).
      split; [done|]. by apply elem_of_map_to_list.
    + apply starts_with_spec. exists rest. by rewrite <- app_assoc.
Qed.

Lemma is_dir_false fs d :
  is_dir fs d = false ↔ ∀ k, is_Some (fs !! k) → ¬ below d k.
Proof.
  rewrite <- not_true_iff_false, is_dir_spec. split.
  - intros Hno k Hk Hbelow. apply Hno. by exists k.
  - intros Hno (k & Hk & Hbelow). by apply (Hno k).
Qed.

(** The copy lands on the destination or on the file of the source's
    name below it. *)
Lemma landing_cases fs p d :
  landing fs p d = d ∨ landing fs p d = d ++ 47 :: path_name p.
Proof. unfold landing. destruct (is_dir fs d); [by right | by left]. Qed.

Lemma landing_file fs p d : is_dir fs d = false → landing fs p d = d.
Proof. unfold landing. by intros ->. Qed.

Lemma landing_ne_self fs p : landing fs p (backup_of p) ≠ p.
Proof.
  destruct (landing_cases fs p (backup_of p)) as [-> | ->].
  - apply backup_of_ne_self.
  - unfold backup_of. intros Heq. apply (f_equal length) in Heq.
    rewrite !length_app in Heq. simpl in Heq. lia.
Qed.

Lemma slash_not_in_suffix : (47 : char) ∉ str ".backup".
Proof. by vm_compute; intros H; repeat (inversion H as [|? ? ? H']; clear H; rename H' into H; subst). Qed.

(** A backup path lies below another one only when its file does. *)
Lemma below_backup q p : below (backup_of q) (backup_of p) → below (backup_of q) p.
Proof.
  unfold below, backup_of. intros [rest Heq].
  change (47 :: rest) with ([47] ++ rest) in Heq. rewrite app_assoc in Heq.
  apply app_eq_inv in Heq as [(k & Hp & Hrest) | (k & Hq & Hsuffix)].
  - exists k. by rewrite Hp, <- !app_assoc.
  - destruct k as [|a k _] using rev_ind.
    + exists []. rewrite app_nil_r in Hq. by rewrite <- Hq, <- !app_assoc.
    + rewrite app_assoc in Hq. apply app_inj_tail in Hq as [_ <-].
      destruct slash_not_in_suffix. rewrite Hsuffix.
      apply elem_of_app. left. apply elem_of_app. right. by left.
Qed.

Lemma clear_subseteq fs ps qs : clear fs qs → ps ⊆ qs → clear fs ps.
Proof. intros Hclear Hsub q k Hq. apply Hclear. by apply Hsub. Qed.

Lemma clear_not_dir fs qs q : clear fs qs → q ∈ qs → is_dir fs (backup_of q) = false.
Proof. intros Hclear Hq. apply is_dir_false. intros k. by apply Hclear. Qed.





End Directories.

(** * One file *)

(** Unfold one call of the converter down to its file operations. *)
Ltac unfold_convert :=
  unfold convert_file_to_modern_dsl, try_except, convert_body;
  unfold mbind, M_bind, mret, M_ret, read_text, copy2, write_text, print.

Section OneFile.

Variable env : world → op → option fault.

Implicit Types (p : path) (w : world) (c : text) (f : fault).

(** The worlds a conversion of [p] passes through, and the place its
    backup copy goes to. *)
Local Abbreviation place p w := (landing (files w) p (backup_of p)).
Local Abbreviation after_read p w := (log (Done (OpRead p)) w).
Local Abbreviation after_copy p c w :=
  (log (Done (OpCopy p (backup_of p))) (store (place p w) c (after_read p w))).
Local Abbreviation rendered p c :=
  (create_modern_dsl_template p (universal_newlines c)).

Lemma convert_read_missing p w :
  files w !! p = None →
  convert_file_to_modern_dsl env p w =
    (Ok false, say (line_error p (no_such_file p)) (log (Failed (OpRead p)) w)).
Proof. intros Hp. unfold_convert. by rewrite Hp. Qed.

Lemma convert_read_fault p w c f :
  files w !! p = Some c → env w (OpRead p) = Some f →
  convert_file_to_modern_dsl env p w =
    (Ok false,
     say (line_error p (OSError (fault_msg f))) (log (Failed (OpRead p)) w)).
Proof. intros Hp Hf. unfold_convert. by rewrite Hp, Hf. Qed.

Lemma convert_skip p w c :
  files w !! p = Some c → env w (OpRead p) = None →
  already_modern (universal_newlines c) = true →
  convert_file_to_modern_dsl env p w =
    (Ok true, say (line_already_modern p) (after_read p w)).
Proof. intros Hp Hr Hm. unfold_convert. by rewrite Hp, Hr, Hm. Qed.

(** Unfold a conversion that has got as far as the copy. *)
Local Ltac reach_copy Hp Hr Hm :=
  unfold_convert; rewrite Hp, Hr, Hm; cbn [files log]; rewrite Hp; cbv zeta;
  match goal with
  | |- context [decide (?p = ?q)] =>
      destruct (decide (p = q)) as [Heq|_];
      [symmetry in Heq; by apply landing_ne_self in Heq|]
  end.

Lemma convert_backup_fault p w c f :
  files w !! p = Some c → env w (OpRead p) = None →
  already_modern (universal_newlines c) = false →
  env (after_read p w) (OpCopy p (backup_of p)) = Some f →
  convert_file_to_modern_dsl env p w =
    (Ok false,
     say (line_error p (OSError (fault_msg f)))
       (log (Failed (OpCopy p (backup_of p)))
          (leave (place p w)
             (if is_dir (files w) (place p w) then None else fault_residue f)
             (after_read p w)))).
Proof. intros Hp Hr Hm Hf. reach_copy Hp Hr Hm. by rewrite Hf. Qed.

(** The place of the copy is taken by a directory. *)
Lemma convert_backup_blocked p w c :
  files w !! p = Some c → env w (OpRead p) = None →
  already_modern (universal_newlines c) = false →
  env (after_read p w) (OpCopy p (backup_of p)) = None →
  is_dir (files w) (place p w) = true →
  convert_file_to_modern_dsl env p w =
    (Ok false,
     say (line_error p (is_a_directory (place p w)))
       (log (Failed (OpCopy p (backup_of p))) (after_read p w))).
Proof. intros Hp Hr Hm Hc Hd. reach_copy Hp Hr Hm. by rewrite Hc, Hd. Qed.

Lemma convert_write_fault p w c f :
  files w !! p = Some c → env w (OpRead p) = None →
  already_modern (universal_newlines c) = false →
  env (after_read p w) (OpCopy p (backup_of p)) = None →
  is_dir (files w) (place p w) = false →
  env (after_copy p c w) (OpWrite p (rendered p c)) = Some f →
  convert_file_to_modern_dsl env p w =
    (Ok false,
     say (line_error p (OSError (fault_msg f)))
       (log (Failed (OpWrite p (rendered p c)))
          (leave p (fault_residue f) (after_copy p c w)))).
Proof.
  intros Hp Hr Hm Hc Hd Hf. reach_copy Hp Hr Hm. rewrite Hc, Hd. by rewrite Hf.
Qed.

Lemma convert_success p w c :
  files w !! p = Some c → env w (OpRead p) = None →
  already_modern (universal_newlines c) = false →
  env (after_read p w) (OpCopy p (backup_of p)) = None →
  is_dir (files w) (place p w) = false →
  env (after_copy p c w) (OpWrite p (rendered p c)) = None →
  convert_file_to_modern_dsl env p w =
    (Ok true,
     say (line_converted p)
       (log (Done (OpWrite p (rendered p c)))
          (store p (rendered p c) (after_copy p c w)))).
Proof.
  intros Hp Hr Hm Hc Hd Hf. reach_copy Hp Hr Hm. rewrite Hc, Hd. by rewrite Hf.
Qed.

(** The files a failed operation can have touched. *)
Lemma lookup_leave q residue w r :
  r ≠ q → files (leave q residue w) !! r = files w !! r.
Proof. intros Hr. destruct residue; simpl; [by rewrite lookup_insert_ne | done]. Qed.

Lemma trace_leave q residue w : trace (leave q residue w) = trace w.
Proof. by destruct residue. Qed.

Lemma stdout_leave q residue w : stdout (leave q residue w) = stdout w.
Proof. by destruct residue. Qed.

(** Traces and console output are only ever extended. *)
Local Ltac world_eq :=
  simpl; rewrite ?trace_leave, ?stdout_leave; simpl; rewrite <- ?app_assoc; done.

Local Ltac each_target :=
  repeat (apply Forall_cons_2; [simpl; naive_solver|]); apply Forall_nil_2.

(** What one call does, whatever the environment: it returns, it prints one
    line about [p], it touches only [p] and the place of its backup, and
    the line tells which of the three outcomes it was. *)
Lemma convert_footprint p w :
  ∃ b w' t line,
    convert_file_to_modern_dsl env p w = (Ok b, w') ∧
    trace w' = trace w ++ t ∧
    stdout w' = stdout w ++ [line] ∧
    (∀ r, r ≠ p → r ≠ place p w → files w' !! r = files w !! r) ∧
    Forall (λ e, ∀ r, target e = Some r → r = p ∨ r = backup_of p) t ∧
    ((b = true ∧ line = line_converted p ∧
      ∃ c, files w !! p = Some c ∧
           already_modern (universal_newlines c) = false ∧
           files w' !! place p w = Some c ∧
           files w' !! p = Some (rendered p c) ∧
           t = [Done (OpRead p); Done (OpCopy p (backup_of p));
                Done (OpWrite p (rendered p c))])
     ∨ (b = true ∧ line = line_already_modern p ∧
        files w' = files w ∧ t = [Done (OpRead p)] ∧
        ∃ c, files w !! p = Some c ∧
             already_modern (universal_newlines c) = true)
     ∨ (b = false ∧ ∃ e o t0, line = line_error p e ∧ t = t0 ++ [Failed o])).
Proof.
  pose proof (landing_ne_self (files w) p) as Hbp.
  destruct (files w !! p) as [c|] eqn:Hp.
  2: { eexists false, _, [Failed (OpRead p)], (line_error p (no_such_file p)).
       rewrite convert_read_missing by done.
       split_and!; [done..| |].
       - each_target.
       - right; right. split; [done|]. eexists _, _, []. split; reflexivity. }
  destruct (env w (OpRead p)) as [f|] eqn:Hr.
  { eexists false, _, [Failed (OpRead p)], (line_error p (OSError (fault_msg f))).
    rewrite (convert_read_fault p w c f) by done.
    split_and!; [done..| |].
    - each_target.
    - right; right. split; [done|]. eexists _, _, []. split; reflexivity. }
  destruct (already_modern (universal_newlines c)) eqn:Hm.
  { eexists true, _, [Done (OpRead p)], (line_already_modern p).
    rewrite (convert_skip p w c) by done.
    split_and!; [done..| |].
    - each_target.
    - right; left. split_and!; [done..|]. by exists c. }
  destruct (env (after_read p w) (OpCopy p (backup_of p))) as [f|] eqn:Hc.
  { eexists false, _, [Done (OpRead p); Failed (OpCopy p (backup_of p))],
      (line_error p (OSError (fault_msg f))).
    rewrite (convert_backup_fault p w c f) by done.
    split_and!.
    - done.
    - world_eq.
    - world_eq.
    - intros r _ Hr2. simpl. by rewrite lookup_leave.
    - each_target.
    - right; right. split; [done|]. eexists _, _, [_]. split; reflexivity. }
  destruct (is_dir (files w) (place p w)) eqn:Hd.
  { eexists false, _, [Done (OpRead p); Failed (OpCopy p (backup_of p))],
      (line_error p (is_a_directory (place p w))).
    rewrite (convert_backup_blocked p w c) by done.
    split_and!.
    - done.
    - world_eq.
    - world_eq.
    - done.
    - each_target.
    - right; right. split; [done|]. eexists _, _, [_]. split; reflexivity. }
  destruct (env (after_copy p c w) (OpWrite p (rendered p c))) as [f|] eqn:Hw.
  { eexists false, _,
      [Done (OpRead p); Done (OpCopy p (backup_of p));
       Failed (OpWrite p (rendered p c))], (line_error p (OSError (fault_msg f))).
    rewrite (convert_write_fault p w c f) by done.
    split_and!.
    - done.
    - world_eq.
    - world_eq.
    - intros r Hr1 Hr2. simpl. rewrite lookup_leave by done. simpl.
      by rewrite lookup_insert_ne.
    - each_target.
    - right; right. split; [done|]. eexists _, _, [_; _]. split; reflexivity. }
  eexists true, _,
    [Done (OpRead p); Done (OpCopy p (backup_of p));
     Done (OpWrite p (rendered p c))], (line_converted p).
  rewrite (convert_success p w c) by done.
  split_and!.
  - done.
  - world_eq.
  - world_eq.
  - intros r Hr1 Hr2. simpl. by rewrite !lookup_insert_ne.
  - each_target.
  - left. split_and!; [done..|]. exists c. split_and!; [done..| | |done].
    + simpl. rewrite lookup_insert_ne by done. by rewrite lookup_insert_eq.
    + simpl. by rewrite lookup_insert_eq.
Qed.

(** The only file a call can create is the backup copy, and only of a
    file that is there. *)
Lemma convert_growth p w b w' k :
  convert_file_to_modern_dsl env p w = (Ok b, w') →
  is_Some (files w' !! k) →
  is_Some (files w !! k) ∨ (k = place p w ∧ is_Some (files w !! p)).
Proof.
  destruct (files w !! p) as [c|] eqn:Hp.
  2: { rewrite convert_read_missing by done. by intros [= _ <-]; left. }
  destruct (env w (OpRead p)) as [f|] eqn:Hr.
  { rewrite (convert_read_fault p w c f) by done. by intros [= _ <-]; left. }
  destruct (already_modern (universal_newlines c)) eqn:Hm.
  { rewrite (convert_skip p w c) by done. by intros [= _ <-]; left. }
  assert (∀ r, is_Some (<[place p w := r]> (files w) !! k) →
    is_Some (files w !! k) ∨ (k = place p w ∧ is_Some (Some c))) as Hput.
  { intros r. destruct (decide (k = place p w)) as [-> | Hk].
    - by right.
    - rewrite lookup_insert_ne by done. by left. }
  assert (∀ r (fs : gmap path text), (is_Some (fs !! k) →
      is_Some (files w !! k) ∨ (k = place p w ∧ is_Some (Some c))) →
    is_Some (<[p := r]> fs !! k) →
    is_Some (files w !! k) ∨ (k = place p w ∧ is_Some (Some c))) as Hover.
  { intros r fs Hfs. destruct (decide (k = p)) as [-> | Hk].
    - intros _. left. by rewrite Hp.
    - by rewrite lookup_insert_ne. }
  destruct (env (after_read p w) (OpCopy p (backup_of p))) as [f|] eqn:Hc.
  { rewrite (convert_backup_fault p w c f) by done. intros [= _ <-]. simpl.
    destruct (is_dir (files w) (place p w)); [by left|].
    destruct (fault_residue f) as [r|]; simpl; [apply Hput | by left]. }
  destruct (is_dir (files w) (place p w)) eqn:Hd.
  { rewrite (convert_backup_blocked p w c) by done. by intros [= _ <-]; left. }
  destruct (env (after_copy p c w) (OpWrite p (rendered p c))) as [f|] eqn:Hw.
  { rewrite (convert_write_fault p w c f) by done. intros [= _ <-]. simpl.
    destruct (fault_residue f) as [r|]; simpl; [apply Hover|]; apply Hput. }
  rewrite (convert_success p w c) by done. intros [= _ <-]. simpl.
  apply Hover, Hput.
Qed.

(** When no backup path of the files [qs] is a directory, the copy goes to
    the backup path itself, and this remains so after the call. *)
Lemma convert_clear p w qs b w' :
  clear (files w) qs → p ∈ qs →
  convert_file_to_modern_dsl env p w = (Ok b, w') →
  place p w = backup_of p ∧ clear (files w') qs.
Proof.
  intros Hclear Hp Hrun.
  assert (place p w = backup_of p) as Hplace.
  { by apply landing_file, (clear_not_dir _ qs). }
  split; [done|]. intros q k Hq Hk Hbelow.
  destruct (convert_growth p w b w' k Hrun Hk) as [Hold | [-> Hthere]].
  - by apply (Hclear q k).
  - rewrite Hplace in Hbelow. apply below_backup in Hbelow.
    by apply (Hclear q p).
Qed.

End OneFile.

(** * The two loops *)

Section Loops.

Variable env : world → op → option fault.

Implicit Types (p : path) (w : world) (c : text) (ps : list path).

Lemma for_each_app {A S} (xs ys : list A) (body : A → S → M S) (s : S) w :
  for_each (xs ++ ys) body s w =
    match for_each xs body s w with
    | (Ok s', w') => for_each ys body s' w'
    | (Raise e, w') => (Raise e, w')
    end.
Proof.
  revert s w. induction xs as [|x xs IH]; intros s w; [done|].
  cbn [app for_each]. unfold mbind, M_bind.
  destruct (body x s w) as [[s'|e] w']; [apply IH | done].
Qed.

Lemma quiet_refl w : quiet w w.
Proof. split; [done|]. exists [], []. by rewrite !app_nil_r. Qed.

Lemma quiet_trans w1 w2 w3 : quiet w1 w2 → quiet w2 w3 → quiet w1 w3.
Proof.
  intros (Hf1 & t1 & l1 & Ht1 & Hq1 & Ho1 & Hl1) (Hf2 & t2 & l2 & Ht2 & Hq2 & Ho2 & Hl2).
  split; [congruence|]. exists (t1 ++ t2), (l1 ++ l2).
  rewrite Ht2, Ht1, Ho2, Ho1, <- !app_assoc.
  split_and!; [done | by apply Forall_app | done | by apply Forall_app].
Qed.

(** One round of detection: the file is appended or not, nothing is
    written; a legacy file that can be read is appended. *)
Lemma detect_footprint p acc w :
  ∃ sel w',
    detect env p acc w = (Ok (acc ++ sel), w') ∧ quiet w w' ∧
    (sel = [] ∨
     sel = [p] ∧ ∃ c, files w !! p = Some c ∧
                      is_legacy (universal_newlines c) = true) ∧
    (env w (OpRead p) = None →
     ∀ c, files w !! p = Some c → is_legacy (universal_newlines c) = true →
          sel = [p]).
Proof.
  unfold detect, try_except, mbind, M_bind, mret, M_ret, read_text, print.
  destruct (files w !! p) as [c|] eqn:Hp.
  2: { exists [], (say (line_read_error p (no_such_file p)) (log (Failed (OpRead p)) w)).
       rewrite app_nil_r. split_and!; [done | | by left | done].
       split; [done|]. eexists [_], [_]. split_and!; [done | | done |].
       - by apply Forall_singleton.
       - apply Forall_singleton. eauto. }
  destruct (env w (OpRead p)) as [f|] eqn:Hr.
  { exists [], (say (line_read_error p (OSError (fault_msg f))) (log (Failed (OpRead p)) w)).
    rewrite app_nil_r. split_and!; [done | | by left | done].
    split; [done|]. eexists [_], [_]. split_and!; [done | | done |].
    - by apply Forall_singleton.
    - apply Forall_singleton. eauto. }
  assert (quiet w (log (Done (OpRead p)) w)) as Hq.
  { split; [done|]. exists [Done (OpRead p)], []. rewrite app_nil_r.
    split_and!; [done | by apply Forall_singleton | done | done]. }
  destruct (is_legacy (universal_newlines c)) eqn:Hl.
  - exists [p], (log (Done (OpRead p)) w). split_and!; [done | done | | done].
    right. split; [done|]. by exists c.
  - exists [], (log (Done (OpRead p)) w). rewrite app_nil_r.
    split_and!; [done | done | by left |]. intros _ c' [= <-]. congruence.
Qed.

(** The detection loop. *)
Lemma detect_loop found : ∀ acc w,
  ∃ sel w',
    for_each found (detect env) acc w = (Ok (acc ++ sel), w') ∧ quiet w w' ∧
    sublist sel found ∧
    Forall (λ p, ∃ c, files w !! p = Some c ∧
                      is_legacy (universal_newlines c) = true) sel ∧
    (∀ p, p ∈ found → (∀ w0, env w0 (OpRead p) = None) →
          ∀ c, files w !! p = Some c → is_legacy (universal_newlines c) = true →
               p ∈ sel).
Proof.
  induction found as [|p found IH]; intros acc w.
  - exists [], w. rewrite app_nil_r.
    split_and!; [done | apply quiet_refl | done | done |].
    intros p Hp. by apply elem_of_nil in Hp.
  - destruct (detect_footprint p acc w) as (sel1 & w1 & Hrun1 & Hq1 & Hsel1 & Hmust1).
    destruct (IH (acc ++ sel1) w1) as (sel2 & w2 & Hrun2 & Hq2 & Hsub & Hall & Hmust2).
    exists (sel1 ++ sel2), w2. split_and!.
    + cbn [for_each]. unfold mbind, M_bind at 1. rewrite Hrun1, Hrun2.
      by rewrite <- app_assoc.
    + by apply (quiet_trans w w1 w2).
    + destruct Hsel1 as [-> | [-> _]]; [by apply sublist_cons | by apply sublist_skip].
    + destruct Hq1 as [Hfiles _]. apply Forall_app. split.
      * destruct Hsel1 as [-> | [-> Hc]]; [done | by apply Forall_singleton].
      * by rewrite <- Hfiles.
    + destruct Hq1 as [Hfiles _].
      intros q [-> | Hq]%elem_of_cons Hread c Hc Hl; apply elem_of_app.
      * left. rewrite (Hmust1 (Hread w) c Hc Hl). by apply list_elem_of_singleton.
      * right. apply (Hmust2 q Hq Hread c); [by rewrite Hfiles | done].
Qed.

(** One round of the conversion loop counts the file on one side. *)
Lemma tally_eq p converted failed w :
  tally env p (converted, failed) w =
    match convert_file_to_modern_dsl env p w with
    | (Ok true, w') => (Ok (converted + 1, failed)%nat, w')
    | (Ok false, w') => (Ok (converted, failed + 1)%nat, w')
    | (Raise e, w') => (Raise e, w')
    end.
Proof.
  unfold tally, mbind, M_bind.
  by destruct (convert_file_to_modern_dsl env p w) as [[[]|] ?].
Qed.

(** The conversion loop: it always ends, every file is counted once, one
    line is printed per file, and only the files of the list, their backup
    paths and the files of their names below these are touched. *)
Lemma tally_loop ps : ∀ converted failed w,
  ∃ converted' failed' w' t lines,
    for_each ps (tally env) (converted, failed) w = (Ok (converted', failed'), w') ∧
    (converted' + failed' = converted + failed + length ps ∧
     converted ≤ converted' ∧ failed ≤ failed')%nat ∧
    trace w' = trace w ++ t ∧
    stdout w' = stdout w ++ lines ∧
    Forall2 about ps lines ∧
    Forall (λ e, ∀ r, target e = Some r →
                      ∃ q, q ∈ ps ∧ (r = q ∨ r = backup_of q)) t ∧
    (∀ r, (∀ q, q ∈ ps → r ≠ q ∧ r ≠ backup_of q ∧
                         r ≠ backup_of q ++ 47 :: path_name q) →
          files w' !! r = files w !! r).
Proof.
  induction ps as [|p ps IH]; intros converted failed w.
  - exists converted, failed, w, [], []. rewrite !app_nil_r.
    split_and!; [done | simpl; lia.. | done | done | constructor | constructor | done].
  - destruct (convert_footprint env p w)
      as (b & w1 & t1 & line & Hrun & Ht1 & Ho1 & Hframe1 & Htargets1 & Hcase).
    assert (∃ c1 f1 : nat, tally env p (converted, failed) w = (Ok (c1, f1), w1) ∧
                     (c1 + f1 = converted + failed + 1 ∧
                      converted ≤ c1 ∧ failed ≤ f1)%nat) as (c1 & f1 & Hstep & Hsum).
    { rewrite tally_eq, Hrun. destruct b; eexists _, _; (split; [reflexivity | lia]). }
    destruct (IH c1 f1 w1)
      as (c2 & f2 & w2 & t2 & lines & Hloop & Hsum2 & Ht2 & Ho2 & Habout & Htargets2 & Hframe2).
    exists c2, f2, w2, (t1 ++ t2), (line :: lines). split_and!; [| simpl; lia.. | | | | |].
    + cbn [for_each]. unfold mbind, M_bind at 1. by rewrite Hstep.
    + by rewrite Ht2, Ht1, <- app_assoc.
    + by rewrite Ho2, Ho1, <- app_assoc.
    + constructor; [|done]. unfold about.
      destruct Hcase as [(_ & -> & _) | [(_ & -> & _) | (_ & e & _ & _ & -> & _)]]; eauto.
    + apply Forall_app. split.
      * eapply Forall_impl; [exact Htargets1|]. intros e He r Hr. exists p.
        split; [by left | by apply He].
      * eapply Forall_impl; [exact Htargets2|].
        intros e He r Hr. destruct (He r Hr) as (q & Hq & Hrq).
        exists q. split; [by right | done].
    + intros r Hr. rewrite Hframe2, Hframe1.
      * done.
      * apply (Hr p). by left.
      * destruct (Hr p) as (_ & Hbackup & Hinside); [by left|].
        by destruct (landing_cases (files w) p (backup_of p)) as [-> | ->].
      * intros q Hq. apply Hr. by right.
Qed.

(** While no backup path of the files [qs] is a directory, the loop on
    some of them keeps it so, touches only these files and their backup
    paths, and creates no file but their backups. *)
Lemma tally_loop_clear qs ps : ∀ counts w counts' w',
  ps ⊆ qs → clear (files w) qs →
  for_each ps (tally env) counts w = (Ok counts', w') →
  clear (files w') qs ∧
  (∀ r, (∀ q, q ∈ ps → r ≠ q ∧ r ≠ backup_of q) →
        files w' !! r = files w !! r) ∧
  (∀ k, is_Some (files w' !! k) →
        is_Some (files w !! k) ∨ ∃ q, q ∈ ps ∧ k = backup_of q).
Proof.
  induction ps as [|p ps IH]; intros [converted failed] w counts' w' Hsub Hclear.
  { intros [= _ <-]. split_and!; [done | done | by left]. }
  cbn [for_each]. unfold mbind, M_bind at 1. rewrite tally_eq.
  destruct (convert_footprint env p w)
    as (b & w1 & t1 & line & Hrun & _ & _ & Hframe1 & _).
  rewrite Hrun.
  assert (p ∈ qs) as Hp by (apply Hsub; by left).
  destruct (convert_clear env p w qs b w1 Hclear Hp Hrun) as [Hplace Hclear1].
  rewrite Hplace in Hframe1.
  assert (ps ⊆ qs) as Hsub' by (intros q Hq; apply Hsub; by right).
  assert (∀ counts1, for_each ps (tally env) counts1 w1 = (Ok counts', w') →
    clear (files w') qs ∧
    (∀ r, (∀ q, q ∈ p :: ps → r ≠ q ∧ r ≠ backup_of q) →
          files w' !! r = files w !! r) ∧
    (∀ k, is_Some (files w' !! k) →
          is_Some (files w !! k) ∨ ∃ q, q ∈ p :: ps ∧ k = backup_of q)) as Hrest.
  { intros counts1 Hloop.
    destruct (IH _ _ _ _ Hsub' Hclear1 Hloop) as (Hclear' & Hframe' & Hgrow').
    split_and!; [done | |].
    - intros r Hr. rewrite Hframe', Hframe1;
        [done | apply (Hr p); by left | apply (Hr p); by left
        | intros q Hq; apply Hr; by right].
    - intros k [Hk | (q & Hq & ->)]%Hgrow'.
      + destruct (convert_growth env p w b w1 k Hrun Hk) as [Hold | [-> _]].
        * by left.
        * right. exists p. split; [by left | done].
      + right. exists q. split; [by right | done]. }
  destruct b; apply Hrest.
Qed.







End Loops.

(** * A whole run *)

Section Run.

Variable env : world → op → option fault.
Variable listing : gmap path text → list path.

Implicit Types (p : path) (w : world) (c : text) (fs : gmap path text).

Local Abbreviation walked fs :=
  (filter (λ p, in_examples p && is_lua p) (listing fs)).

(** [main], phase by phase. *)
Lemma main_eq w :
  main env listing w =
    match for_each (walked (files w)) (detect env) [] (say line_start w) with
    | (Ok [], w1) => (Ok tt, say line_nothing (say (line_found 0) w1))
    | (Ok (p :: ps), w1) =>
        match for_each (p :: ps) (tally env) (0, 0)%nat
                (say (line_found (length (p :: ps))) w1) with
        | (Ok (converted, failed), w2) =>
            (Ok tt, say (summary converted failed (length (p :: ps))) w2)
        | (Raise e, w2) => (Raise e, w2)
        end
    | (Raise e, w1) => (Raise e, w1)
    end.
Proof.
  unfold main, mbind, M_bind, print, rglob. cbn [files say].
  destruct (for_each _ (detect env) [] _) as [[[|p ps]|e] w1]; [done | | done].
  destruct (for_each (p :: ps) _ _ _) as [[[converted failed]|e] w2]; done.
Qed.

(** The first loop always ends, with the list called [candidates]. *)
Lemma candidates_eq fs :
  ∃ w1,
    for_each (walked fs) (detect env) [] (say line_start (boot fs)) =
      (Ok (candidates env listing fs), w1) ∧
    quiet (say line_start (boot fs)) w1 ∧
    sublist (candidates env listing fs) (walked fs).
Proof.
  destruct (detect_loop env (walked fs) [] (say line_start (boot fs)))
    as (sel & w1 & Hrun & Hquiet & Hsub & _).
  unfold candidates, mbind, M_bind, print, rglob. cbn [files say boot] in *.
  rewrite Hrun. by exists w1.
Qed.

(** Every candidate is a [.lua] file below [examples] whose text holds one
    of the two legacy markers. *)
Lemma candidates_sound fs :
  Forall (λ p, in_examples p = true ∧ is_lua p = true ∧
               ∃ c, fs !! p = Some c ∧ is_legacy (universal_newlines c) = true)
    (candidates env listing fs).
Proof.
  destruct (detect_loop env (walked fs) [] (say line_start (boot fs)))
    as (sel & w1 & Hrun & Hquiet & Hsub & Hall & _).
  destruct (candidates_eq fs) as (w1' & Hrun' & _).
  rewrite Hrun in Hrun'. injection Hrun' as <- _.
  apply Forall_forall. intros p Hp.
  assert (p ∈ walked fs) as Hwalk.
  { by apply (sublist_subseteq _ _ Hsub). }
  apply list_elem_of_filter in Hwalk as [Hpat _].
  apply andb_True in Hpat as [Hin Hlua].
  rewrite Forall_forall in Hall. specialize (Hall p Hp).
  split_and!; [by apply Is_true_eq_true.. | done].
Qed.


(** No file is a candidate twice. *)
Lemma candidates_NoDup fs : faithful listing → NoDup (candidates env listing fs).
Proof.
  intros Hfaithful. destruct (candidates_eq fs) as (w1 & _ & _ & Hsub).
  eapply sublist_NoDup; [|exact Hsub]. apply NoDup_filter, Hfaithful.
Qed.

(** A readable legacy [.lua] file below [examples] is a candidate. *)
Lemma candidates_complete fs p c :
  faithful listing →
  fs !! p = Some c → in_examples p = true → is_lua p = true →
  is_legacy (universal_newlines c) = true →
  (∀ w0, env w0 (OpRead p) = None) →
  p ∈ candidates env listing fs.
Proof.
  intros Hfaithful Hp Hin Hlua Hlegacy Hread.
  destruct (detect_loop env (walked fs) [] (say line_start (boot fs)))
    as (sel & w1 & Hrun & _ & _ & _ & Hmust).
  destruct (candidates_eq fs) as (w1' & Hrun' & _).
  rewrite Hrun in Hrun'. injection Hrun' as <- _.
  apply (Hmust p) with c; [|done..].
  apply list_elem_of_filter. split.
  - rewrite Hin, Hlua. done.
  - apply Hfaithful. by exists c.
Qed.

(** The shape of every run. *)
Lemma main_run fs :
  ∃ w1,
    quiet (say line_start (boot fs)) w1 ∧
    ((candidates env listing fs = [] ∧
      main env listing (boot fs) =
        (Ok tt, say line_nothing (say (line_found 0) w1)))
     ∨ (candidates env listing fs ≠ [] ∧
        ∃ converted failed w2,
          for_each (candidates env listing fs) (tally env) (0, 0)%nat
            (say (line_found (length (candidates env listing fs))) w1) =
            (Ok (converted, failed), w2) ∧
          main env listing (boot fs) =
            (Ok tt,
             say (summary converted failed (length (candidates env listing fs)))
               w2))).
Proof.
  destruct (candidates_eq fs) as (w1 & Hrun & Hquiet & _).
  exists w1. split; [done|]. rewrite main_eq. cbn [files boot] in *. rewrite Hrun.
  destruct (candidates env listing fs) as [|p ps] eqn:Hps; [by left|].
  right. split; [done|].
  destruct (tally_loop env (p :: ps) 0 0 (say (line_found (length (p :: ps))) w1))
    as (converted & failed & w2 & t & lines & Hloop & _).
  exists converted, failed, w2. by rewrite Hloop.
Qed.

End Run.

(** * The renderer *)

Section Renderer.

Implicit Types (p : path) (original X : text).

(** The template, for the fields the renderer derives. *)
Lemma template_eq p original :
  create_modern_dsl_template p original =
    unlines (template_lines p (path_stem p)
               (extract_description (path_stem p) original)
               (classify p).1 (classify p).2).
Proof. unfold create_modern_dsl_template. by destruct (classify p). Qed.

Lemma template_line p original (i : nat) line :
  template_lines p (path_stem p) (extract_description (path_stem p) original)
    (classify p).1 (classify p).2 !! i = Some line →
  occurs_in (line ++ [nl]) (create_modern_dsl_template p original).
Proof.
  intros Hline. rewrite template_eq. unfold unlines.
  apply list_elem_of_split_length in Hline as (before & after & -> & _).
  rewrite flat_map_app. cbn [flat_map].
  apply occurs_in_app_r, occurs_in_app_l, occurs_in_refl.
Qed.

(** The renderer's output always names the legacy format: its second line
    is a fixed comment that holds the type-name marker. *)
Lemma template_has_marker p original :
  occurs_in (str "TaskDefinition") (create_modern_dsl_template p original).
Proof.
  eapply occurs_in_trans; [|by apply (template_line p original 1)].
  apply occurs_in_app_l. by exists (str "-- Converted from legacy "), (str " format").
Qed.

(** It also declares a task in the new dialect. *)
Lemma template_has_task p original :
  occurs_in (str "task(") (create_modern_dsl_template p original).
Proof.
  eapply occurs_in_trans; [|by apply (template_line p original 5)].
  apply occurs_in_app_l, occurs_in_app_l. by exists (str "local main_task = "), [].
Qed.

(** C4.  The category and complexity are chosen by testing the path for
    [beginner], then [intermediate], then [advanced], the first hit
    deciding; otherwise they are [general] and [basic].  The pair is always
    one of the four rows of the table, and it is the pair the rendered
    template carries. *)
Theorem classification_priority_ordered p :
  (occurs_in (str "beginner") p →
     classify p = (str "beginner", str "simple")) ∧
  (¬ occurs_in (str "beginner") p → occurs_in (str "intermediate") p →
     classify p = (str "intermediate", str "moderate")) ∧
  (¬ occurs_in (str "beginner") p → ¬ occurs_in (str "intermediate") p →
   occurs_in (str "advanced") p →
     classify p = (str "advanced", str "complex")) ∧
  (¬ occurs_in (str "beginner") p → ¬ occurs_in (str "intermediate") p →
   ¬ occurs_in (str "advanced") p →
     classify p = (str "general", str "basic")) ∧
  classify p ∈ classification_table ∧
  ∀ original,
    let rendered := create_modern_dsl_template p original in
    occurs_in (str "-- Category: " ++ (classify p).1 ++
               str ", Complexity: " ++ (classify p).2 ++ [nl]) rendered ∧
    occurs_in (str "        category = " ++ [dq] ++ (classify p).1 ++ [dq] ++
               str "," ++ [nl] ++
               str "        complexity = " ++ [dq] ++ (classify p).2 ++ [dq] ++
               str "," ++ [nl]) rendered.
Proof.
  unfold classify. split_and!.
  - intros H%contains_spec. by rewrite H.
  - intros H1%contains_false H2%contains_spec. by rewrite H1, H2.
  - intros H1%contains_false H2%contains_false H3%contains_spec.
    by rewrite H1, H2, H3.
  - intros H1%contains_false H2%contains_false H3%contains_false.
    by rewrite H1, H2, H3.
  - unfold classification_table.
    destruct (contains (str "beginner") p); [set_solver|].
    destruct (contains (str "intermediate") p); [set_solver|].
    destruct (contains (str "advanced") p); set_solver.
  - intros original. fold (classify p). split.
    + pose proof (template_line p original 2 _ eq_refl) as H.
      by rewrite <- !app_assoc in H.
    + rewrite template_eq. unfold unlines.
      assert (∃ before after,
        template_lines p (path_stem p)
          (extract_description (path_stem p) original)
          (classify p).1 (classify p).2 =
        before ++
        [str "        category = " ++ [dq] ++ (classify p).1 ++ [dq] ++ str ",";
         str "        complexity = " ++ [dq] ++ (classify p).2 ++ [dq] ++ str ","]
        ++ after) as (before & after & ->).
      { set (ls := template_lines _ _ _ _ _).
        exists (take 46 ls), (drop 48 ls). reflexivity. }
      rewrite flat_map_app. apply occurs_in_app_r.
      rewrite flat_map_app. apply occurs_in_app_l.
      cbn [flat_map]. rewrite app_nil_r, <- !app_assoc. apply occurs_in_refl.
Qed.

Lemma template_description p original :
  carries_description (create_modern_dsl_template p original)
    (extract_description (path_stem p) original).
Proof.
  split_and!.
  - pose proof (template_line p original 0 _ eq_refl) as H.
    by rewrite <- !app_assoc in H.
  - pose proof (template_line p original 6 _ eq_refl) as H.
    by rewrite <- !app_assoc in H.
  - pose proof (template_line p original 41 _ eq_refl) as H.
    by rewrite <- !app_assoc in H.
Qed.

(** What the pattern returns on a double-quoted description that holds an
    apostrophe: the text up to the apostrophe. *)
Example description_cut_at_apostrophe :
  extract_description (str "hello")
    (str "description = " ++ [dq] ++ str "Don't panic" ++ [dq]) = str "Don".
Proof. reflexivity. Qed.

(** C3 as stated does not hold: the text contains a description
    assignment whose quoted value is [X], yet the description is not [X]. *)
Lemma description_verbatim_counterexample :
  ¬ ∀ p original X,
      occurs_in (str "description = " ++ [dq] ++ X ++ [dq]) original →
      extract_description (path_stem p) original = X.
Proof.
  intros Hclaim.
  specialize (Hclaim (str "examples/hello.lua")
                (str "description = " ++ [dq] ++ str "Don't panic" ++ [dq])
                (str "Don't panic") (occurs_in_refl _)).
  vm_compute in Hclaim. discriminate.
Qed.

(** C3, amended.  If the leftmost place of the original text where the
    word [description], an equals sign and a quote character are followed
    by a non-empty run [X] free of both quote characters and by a quote
    character captures [X], then the description is [X] and the rendered
    template carries it verbatim.  If there is no such place, the
    description is [Modern DSL version of] followed by the base name, and
    that is what the template carries. *)
Theorem description_extraction p original :
  (∀ before X,
     first_description original before X →
     extract_description (path_stem p) original = X ∧
     carries_description (create_modern_dsl_template p original) X) ∧
  (no_description original →
     extract_description (path_stem p) original =
       str "Modern DSL version of " ++ path_stem p ∧
     occurs_in (path_stem p) (extract_description (path_stem p) original) ∧
     carries_description (create_modern_dsl_template p original)
       (str "Modern DSL version of " ++ path_stem p)).
Proof.
  split.
  - intros before X Hfirst.
    assert (extract_description (path_stem p) original = X) as Heq.
    { unfold extract_description.
      by rewrite (search_description_first original before X). }
    split; [done|]. rewrite <- Heq. apply template_description.
  - intros Hnone.
    assert (extract_description (path_stem p) original =
            str "Modern DSL version of " ++ path_stem p) as Heq.
    { unfold extract_description. by rewrite search_description_none. }
    split_and!; [done | |].
    + rewrite Heq. apply occurs_in_app_r, occurs_in_refl.
    + rewrite <- Heq. apply template_description.
Qed.

End Renderer.

(** The description claim at work: a single-quoted description, and a text
    without any. *)
Lemma description_extraction_witness :
  extract_description (path_stem (str "examples/beginner/hello.lua"))
    (str "TaskDefinition{ description = 'Say hello' }") = str "Say hello"
  ∧ extract_description (path_stem (str "examples/beginner/hello.lua"))
      (str "TaskDefinition{}") = str "Modern DSL version of hello".
Proof.
  pose proof (description_extraction (str "examples/beginner/hello.lua")
                (str "TaskDefinition{ description = 'Say hello' }")) as [Hfound _].
  pose proof (description_extraction (str "examples/beginner/hello.lua")
                (str "TaskDefinition{}")) as [_ Hdefault].
  split.
  - destruct (search_description_sound
                (str "TaskDefinition{ description = 'Say hello' }")
                (str "Say hello") eq_refl) as [before Hfirst].
    exact (proj1 (Hfound before (str "Say hello") Hfirst)).
  - refine (proj1 (Hdefault _)).
    apply search_description_none_sound. reflexivity.
Defined.

(** The classification claim at work on a path with two markers. *)
Lemma classification_witness :
  classify (str "examples/advanced/beginner_demo.lua") =
    (str "beginner", str "simple").
Proof.
  apply (classification_priority_ordered (str "examples/advanced/beginner_demo.lua")).
  apply contains_spec. reflexivity.
Defined.

(** * The skip test and a failed backup *)

Section Policy.

Variable env : world → op → option fault.

Implicit Types (p : path) (w : world) (c : text) (f : fault).

Lemma already_modern_spec original :
  already_modern original = true ↔
  occurs_in (str "task(") original ∧ ¬ occurs_in (str "TaskDefinition") original.
Proof.
  unfold already_modern.
  rewrite andb_true_iff, negb_true_iff, contains_spec, contains_false. done.
Qed.

Lemma is_legacy_spec content :
  is_legacy content = true ↔
  occurs_in (str "TaskDefinition") content ∨ occurs_in (str "task_definition") content.
Proof. unfold is_legacy. by rewrite orb_true_iff, !contains_spec. Qed.

(** C5.  A candidate whose text can be read is skipped, that is reported
    as already modern and counted as a success with no copy and no write
    attempted, exactly when its text contains [task(] and does not contain
    [TaskDefinition]; a candidate that fails the test goes on to the backup
    copy and, once that is made, to the rewrite. *)
Theorem skip_policy p w c :
  files w !! p = Some c → env w (OpRead p) = None →
  let original_content := universal_newlines c in
  let skipped :=
    convert_file_to_modern_dsl env p w =
      (Ok true, say (line_already_modern p) (log (Done (OpRead p)) w)) in
  ((occurs_in (str "task(") original_content ∧
    ¬ occurs_in (str "TaskDefinition") original_content) ↔ skipped) ∧
  (skipped → ∀ converted failed,
     tally env p (converted, failed) w =
       (Ok (converted + 1, failed)%nat,
        say (line_already_modern p) (log (Done (OpRead p)) w))) ∧
  (¬ skipped →
   ∃ b w' rest,
     convert_file_to_modern_dsl env p w = (Ok b, w') ∧
     trace w' = trace w ++ Done (OpRead p) :: rest ∧
     (rest = [Failed (OpCopy p (backup_of p))] ∨
      ∃ rendered,
        rest = [Done (OpCopy p (backup_of p)); Done (OpWrite p rendered)] ∨
        rest = [Done (OpCopy p (backup_of p)); Failed (OpWrite p rendered)])).
Proof.
  intros Hp Hr original_content skipped. subst original_content skipped.
  rewrite <- already_modern_spec.
  destruct (already_modern (universal_newlines c)) eqn:Hm.
  { rewrite (convert_skip env p w c) by done. split_and!; [done | | done].
    intros _ converted failed. by rewrite tally_eq, (convert_skip env p w c). }
  assert (∃ b w' rest line,
    convert_file_to_modern_dsl env p w = (Ok b, w') ∧
    trace w' = trace w ++ Done (OpRead p) :: rest ∧
    stdout w' = stdout w ++ [line] ∧ line ≠ line_already_modern p ∧
    (rest = [Failed (OpCopy p (backup_of p))] ∨
     ∃ rendered,
       rest = [Done (OpCopy p (backup_of p)); Done (OpWrite p rendered)] ∨
       rest = [Done (OpCopy p (backup_of p)); Failed (OpWrite p rendered)]))
    as (b & w' & rest & line & Hrun & Htrace & Hout & Hline & Hrest).
  { destruct (env (log (Done (OpRead p)) w) (OpCopy p (backup_of p)))
      as [f|] eqn:Hc.
    { eexists _, _, _, (line_error p (OSError (fault_msg f))).
      rewrite (convert_backup_fault env p w c f) by done.
      split_and!; [done | | | done | by left].
      - simpl. rewrite trace_leave. simpl. by rewrite <- app_assoc.
      - simpl. by rewrite stdout_leave. }
    destruct (is_dir (files w) (landing (files w) p (backup_of p))) eqn:Hd.
    { eexists _, _, _,
        (line_error p (is_a_directory (landing (files w) p (backup_of p)))).
      rewrite (convert_backup_blocked env p w c) by done.
      split_and!; [done | | done | done | by left].
      simpl. by rewrite <- app_assoc. }
    destruct (env (log (Done (OpCopy p (backup_of p)))
                     (store (landing (files w) p (backup_of p)) c
                        (log (Done (OpRead p)) w)))
                (OpWrite p (create_modern_dsl_template p (universal_newlines c))))
      as [f|] eqn:Hw.
    { eexists _, _, _, (line_error p (OSError (fault_msg f))).
      rewrite (convert_write_fault env p w c f) by done.
      split_and!; [done | | | done | right; eexists; by right].
      - simpl. rewrite trace_leave. simpl. by rewrite <- !app_assoc.
      - simpl. by rewrite stdout_leave. }
    eexists _, _, _, (line_converted p).
    rewrite (convert_success env p w c) by done.
    split_and!; [done | | done | done | right; eexists; by left].
    simpl. by rewrite <- !app_assoc. }
  assert (convert_file_to_modern_dsl env p w ≠
          (Ok true, say (line_already_modern p) (log (Done (OpRead p)) w)))
    as Hnot.
  { rewrite Hrun. intros [= _ Hw']. apply (f_equal stdout) in Hw'.
    rewrite Hout in Hw'. simpl in Hw'. by apply app_inv_head in Hw' as [= ?]. }
  split_and!; [by split | done |].
  intros _. by exists b, w', rest.
Qed.

(** C6.  When the backup copy fails, the conversion of that file stops
    there: the original holds the bytes it held, no write to it is even
    attempted, the file is reported and counted as failed, and the loop
    goes on with the files that remain and ends normally. *)
Theorem backup_failure_is_contained p w c f ps converted failed :
  files w !! p = Some c → env w (OpRead p) = None →
  already_modern (universal_newlines c) = false →
  env (log (Done (OpRead p)) w) (OpCopy p (backup_of p)) = Some f →
  ∃ w',
    convert_file_to_modern_dsl env p w = (Ok false, w') ∧
    files w' !! p = Some c ∧
    trace w' = trace w ++ [Done (OpRead p); Failed (OpCopy p (backup_of p))] ∧
    stdout w' = stdout w ++ [line_error p (OSError (fault_msg f))] ∧
    for_each (p :: ps) (tally env) (converted, failed) w =
      for_each ps (tally env) (converted, failed + 1)%nat w' ∧
    ∃ converted' failed' w'',
      for_each (p :: ps) (tally env) (converted, failed) w =
        (Ok (converted', failed'), w'') ∧
      (converted' + failed' = converted + failed + 1 + length ps)%nat ∧
      (1 ≤ failed')%nat.
Proof.
  intros Hp Hr Hm Hf. eexists.
  pose proof (convert_backup_fault env p w c f Hp Hr Hm Hf) as Hrun.
  split_and!; [exact Hrun | | | | |].
  - simpl. rewrite lookup_leave by (apply not_eq_sym, landing_ne_self). done.
  - simpl. rewrite trace_leave. simpl. by rewrite <- app_assoc.
  - simpl. by rewrite stdout_leave.
  - cbn [for_each]. unfold mbind, M_bind at 1. by rewrite tally_eq, Hrun.
  - cbn [for_each]. unfold mbind, M_bind at 1. rewrite tally_eq, Hrun.
    match goal with
    | |- context [for_each ps _ _ ?w1] =>
        destruct (tally_loop env ps converted (failed + 1) w1)
          as (converted' & failed' & w'' & _ & _ & Hloop & Hsum & _)
    end.
    exists converted', failed', w''. split; [done | simpl; lia].
Qed.

End Policy.

(** * The anatomy of a run *)

(** Split a membership in a concatenation of console lines into its cases
    and drop those that equate two different kinds of line. *)
Ltac sift H :=
  repeat match type of H with
         | _ ∨ _ => destruct H as [H|H]
         end;
  try done; try discriminate H.

Section Anatomy.

Variable env : world → op → option fault.
Variable listing : gmap path text → list path.

Implicit Types (p : path) (w : world) (c : text) (fs : gmap path text).

(** Every run ends normally.  With no candidate nothing is written and
    two lines follow the scan; otherwise the loop's lines are followed by
    the summary, and, when no candidate's backup path is a directory, only
    the candidates and their backup paths are touched. *)
Lemma run_anatomy fs :
  ∃ w' scans warnings,
    main env listing (boot fs) = (Ok tt, w') ∧
    Forall (λ e, target e = None) scans ∧
    Forall (λ l, ∃ p e, l = line_read_error p e) warnings ∧
    ((candidates env listing fs = [] ∧
      files w' = fs ∧ trace w' = scans ∧
      stdout w' = [line_start] ++ warnings ++ [line_found 0; line_nothing])
     ∨ (candidates env listing fs ≠ [] ∧
        ∃ converted failed t lines,
          trace w' = scans ++ t ∧
          stdout w' =
            [line_start] ++ warnings ++
            [line_found (length (candidates env listing fs))] ++ lines ++
            [summary converted failed (length (candidates env listing fs))] ∧
          (converted + failed = length (candidates env listing fs))%nat ∧
          Forall2 about (candidates env listing fs) lines ∧
          Forall (λ e, ∀ r, target e = Some r →
                    ∃ q, q ∈ candidates env listing fs ∧
                         (r = q ∨ r = backup_of q)) t ∧
          (clear fs (candidates env listing fs) →
           ∀ r, (∀ q, q ∈ candidates env listing fs →
                      r ≠ q ∧ r ≠ backup_of q) →
                files w' !! r = fs !! r))).
Proof.
  destruct (main_run env listing fs)
    as (w1 & (Hfiles & scans & warnings & Htrace & Hscans & Hout & Hwarn) & Hmain).
  cbn [files trace stdout say boot app] in Hfiles, Htrace, Hout.
  destruct Hmain as [[Hnone Hmain] | (Hsome & converted & failed & w2 & Hloop & Hmain)].
  - exists (say line_nothing (say (line_found 0) w1)), scans, warnings.
    split_and!; [done..|]. left. split_and!; [done..|].
    cbn [stdout say]. rewrite Hout. by rewrite <- !app_assoc.
  - exists (say (summary converted failed (length (candidates env listing fs))) w2),
      scans, warnings.
    split_and!; [done..|]. right. split; [done|].
    destruct (tally_loop env (candidates env listing fs) 0 0
                (say (line_found (length (candidates env listing fs))) w1))
      as (c' & f' & w2' & t & lines & Hloop' & Hsum & Ht & Ho & Habout & Htargets & _).
    rewrite Hloop in Hloop'. injection Hloop' as <- <- <-.
    exists converted, failed, t, lines.
    cbn [files trace stdout say] in *. split_and!; [|  | lia | done..| ].
    + by rewrite Ht, Htrace.
    + rewrite Ho, Hout. by rewrite <- !app_assoc.
    + intros Hclear r Hr.
      apply tally_loop_clear with (qs := candidates env listing fs) in Hloop
        as (_ & Hframe & _); [|done|cbn [files say]; by rewrite Hfiles].
      rewrite Hframe by done. cbn [files say]. by rewrite Hfiles.
Qed.




End Anatomy.

(** * Properties of a run *)

(** The two legacy markers and the task marker hold no line break, so
    reading in text mode neither creates nor destroys an occurrence. *)
Lemma occurs_in_universal_newlines needle s :
  one_line needle → needle ≠ [] →
  occurs_in needle (universal_newlines s) ↔ occurs_in needle s.
Proof.
  intros Hline Hne. by rewrite <- !contains_spec, contains_universal_newlines.
Qed.

Lemma one_line_markers :
  one_line (str "TaskDefinition") ∧ one_line (str "task_definition") ∧
  one_line (str "task(").
Proof.
  unfold one_line. split_and!; apply Forall_forall; intros c Hc;
    vm_compute in Hc; apply list_elem_of_In in Hc; simpl in Hc;
    split; intros ->; sift Hc.
Qed.

Lemma is_legacy_universal_newlines c :
  is_legacy (universal_newlines c) = is_legacy c.
Proof.
  destruct one_line_markers as (H1 & H2 & _).
  unfold is_legacy. by rewrite !contains_universal_newlines.
Qed.

Lemma already_modern_universal_newlines c :
  already_modern (universal_newlines c) = already_modern c.
Proof.
  destruct one_line_markers as (H1 & _ & H3).
  unfold already_modern. by rewrite !contains_universal_newlines.
Qed.

Section Properties.

Variable env : world → op → option fault.
Variable listing : gmap path text → list path.

Implicit Types (p r : path) (w : world) (c : text) (fs : gmap path text).




(** C7, amended.  On a console that accepts every line it is given (the
    [print] of the handler is not guarded, so an exception of the console
    itself would escape): every exception raised while one file is
    converted is caught by the converter, which reports the file and
    returns [False]; the loop counts the file as failed and goes on.  The
    converter and the run never raise.  For every non-empty list of
    candidates the run ends with the summary, whose two counts add up to
    the number of candidates; for the empty list it ends with the line
    that no files need conversion, and prints no summary, with any
    counts. *)
Theorem errors_are_contained :
  (∀ p w e w1,
     convert_body env p w = (Raise e, w1) →
     convert_file_to_modern_dsl env p w = (Ok false, say (line_error p e) w1) ∧
     ∀ converted failed,
       tally env p (converted, failed) w =
         (Ok (converted, failed + 1)%nat, say (line_error p e) w1)) ∧
  (∀ p w, ∃ b w', convert_file_to_modern_dsl env p w = (Ok b, w')) ∧
  (∀ fs, ∃ w',
     main env listing (boot fs) = (Ok tt, w') ∧
     (candidates env listing fs ≠ [] →
      ∃ converted failed,
        last (stdout w') =
          Some (summary converted failed (length (candidates env listing fs))) ∧
        (converted + failed = length (candidates env listing fs))%nat) ∧
     (candidates env listing fs = [] →
      last (stdout w') = Some line_nothing ∧
      ∀ converted failed total, summary converted failed total ∉ stdout w')).
Proof.
  split_and!.
  - intros p w e w1 Hbody.
    assert (convert_file_to_modern_dsl env p w = (Ok false, say (line_error p e) w1))
      as Hrun.
    { unfold convert_file_to_modern_dsl, try_except. by rewrite Hbody. }
    split; [done|]. intros converted failed. by rewrite tally_eq, Hrun.
  - intros p w. destruct (convert_footprint env p w) as (b & w' & _ & _ & Hrun & _).
    by exists b, w'.
  - intros fs.
    destruct (run_anatomy env listing fs)
      as (w' & scans & warnings & Hmain & _ & Hwarn & Hcase).
    exists w'. split_and!; [done | |].
    + intros Hsome.
      destruct Hcase as [(Hnone & _) |
        (_ & converted & failed & t & lines & _ & Hout & Hsum & _)]; [done|].
      exists converted, failed. split; [|done].
      rewrite Hout, !app_assoc. apply last_snoc.
    + intros Hnone.
      destruct Hcase as [(_ & _ & _ & Hout) | (Hsome & _)]; [|done].
      rewrite Hout. split.
      * change [line_found 0; line_nothing] with ([line_found 0] ++ [line_nothing]).
        rewrite !app_assoc. apply last_snoc.
      * intros converted failed total.
        rewrite !elem_of_app, !elem_of_cons, !elem_of_nil. intros H. sift H.
        rewrite Forall_forall in Hwarn. destruct (Hwarn _ H) as (q & [msg] & Heq).
        discriminate Heq.
Qed.

(** C8, amended.  When no [.lua] file below [examples] contains either
    legacy marker, the run writes nothing, prints that it found 0 files
    and that no files need conversion, and stops there: no summary is
    printed, with any counts. *)
Theorem empty_run fs :
  (∀ p c, fs !! p = Some c → in_examples p = true → is_lua p = true →
          ¬ occurs_in (str "TaskDefinition") c ∧
          ¬ occurs_in (str "task_definition") c) →
  ∃ w' warnings,
    main env listing (boot fs) = (Ok tt, w') ∧
    files w' = fs ∧
    Forall (λ e, target e = None) (trace w') ∧
    stdout w' = [line_start] ++ warnings ++ [line_found 0; line_nothing] ∧
    Forall (λ l, ∃ p e, l = line_read_error p e) warnings ∧
    ∀ converted failed total, summary converted failed total ∉ stdout w'.
Proof.
  intros Hclean.
  pose proof (candidates_sound env listing fs) as Hsound.
  assert (candidates env listing fs = []) as Hnone.
  { destruct (candidates env listing fs) as [|p ps]; [done|].
    apply Forall_cons in Hsound as [(Hin & Hlua & c & Hc & Hlegacy) _].
    rewrite is_legacy_universal_newlines in Hlegacy.
    apply is_legacy_spec in Hlegacy. destruct (Hclean p c Hc Hin Hlua). tauto. }
  destruct (run_anatomy env listing fs) as (w' & scans & warnings & Hmain & Hscans & Hwarn & Hcase).
  destruct Hcase as [(_ & Hfiles & Ht & Hout) | (Hsome & _)]; [|done].
  exists w', warnings. split_and!; [done | done | by rewrite Ht | done | done |].
  intros converted failed total. rewrite Hout.
  rewrite !elem_of_app, !elem_of_cons, !elem_of_nil. intros H. sift H.
  rewrite Forall_forall in Hwarn. destruct (Hwarn _ H) as (q & [msg] & Heq).
  discriminate Heq.
Qed.

End Properties.

(** * Concrete runs *)

(** The order of the map's keys is a directory order. *)
Lemma key_order_faithful : faithful key_order.
Proof.
  intros fs. unfold key_order. split.
  - apply NoDup_fst_map_to_list.
  - intros p. rewrite list_elem_of_fmap. split.
    + intros ([q c] & -> & Hin). apply elem_of_map_to_list in Hin. by exists c.
    + intros [c Hc]. exists (p, c). split; [done|]. by apply elem_of_map_to_list.
Qed.

(** C1, on a tree with one legacy file.  The renderer's output always
    names the legacy format, so it never passes the skip test and the
    detector always selects it again.  The second run converts the file a
    second time, and the backup made by the first run, which held the
    original, is replaced by a copy of the first run's output. *)
Theorem second_run_converts_again :
  (∀ p original,
     let reread := universal_newlines (create_modern_dsl_template p original) in
     is_legacy reread = true ∧ already_modern reread = false) ∧
  files (first_run legacy_tree) !! backup_of hello = Some legacy_text ∧
  hello ∈ candidates calm key_order (files (first_run legacy_tree)) ∧
  line_converted hello ∈ stdout (second_run legacy_tree) ∧
  (line_already_modern hello ∉ stdout (second_run legacy_tree)) ∧
  files (second_run legacy_tree) !! backup_of hello =
    files (first_run legacy_tree) !! hello ∧
  files (second_run legacy_tree) !! backup_of hello ≠ Some legacy_text ∧
  files (second_run legacy_tree) !! hello ≠ files (first_run legacy_tree) !! hello.
Proof.
  split_and!.
  - intros p original reread. subst reread.
    rewrite is_legacy_universal_newlines, already_modern_universal_newlines.
    pose proof (template_has_marker p original) as Hmarker%contains_spec.
    unfold is_legacy, already_modern. by rewrite Hmarker, andb_false_r.
  - by vm_compute.
  - apply (list_elem_of_lookup_2 _ 0%nat). by vm_compute.
  - apply (list_elem_of_lookup_2 _ 2%nat). by vm_compute.
  - intros Hin%list_elem_of_In. vm_compute in Hin. sift Hin.
  - by vm_compute.
  - by vm_compute.
  - by vm_compute.
Qed.



(** C5 at work: a modern script is skipped, a legacy one is not. *)
Lemma skip_policy_witness :
  convert_file_to_modern_dsl calm (str "examples/ok.lua") (boot modern_tree) =
    (Ok true,
     say (line_already_modern (str "examples/ok.lua"))
       (log (Done (OpRead (str "examples/ok.lua"))) (boot modern_tree))).
Proof.
  apply (skip_policy calm (str "examples/ok.lua") (boot modern_tree)
           (str "local t = task(1)")); [reflexivity | reflexivity |].
  split; [apply contains_spec | apply contains_false]; reflexivity.
Defined.

(** C6 at work: the disk is full, the original keeps its text and the
    file is counted as failed. *)
Lemma backup_failure_witness :
  ∃ w',
    for_each [hello] (tally disk_full) (0, 0)%nat (boot legacy_tree) =
      (Ok (0, 1)%nat, w') ∧
    files w' !! hello = Some legacy_text.
Proof.
  destruct (backup_failure_is_contained disk_full hello (boot legacy_tree)
              legacy_text (Fault (str "[Errno 28] No space left on device") None)
              [] 0 0 eq_refl eq_refl eq_refl eq_refl)
    as (w' & Hrun & Hfile & _ & _ & Hloop & _).
  exists w'. split; [|exact Hfile]. rewrite Hloop. reflexivity.
Defined.

(** C7 as stated does not hold: a run that finds no candidate ends without
    the summary. *)
Lemma summary_not_always_printed :
  ¬ ∀ env listing fs,
      faithful listing →
      ∃ converted failed total,
        summary converted failed total ∈ stdout (main env listing (boot fs)).2.
Proof.
  intros Hclaim.
  destruct (Hclaim calm key_order modern_tree key_order_faithful)
    as (converted & failed & total & Hin).
  apply list_elem_of_In in Hin. vm_compute in Hin. sift Hin.
Qed.

(** C7 at work: with a full disk the one file fails, and the run still
    ends with the summary. *)
Lemma errors_are_contained_witness :
  ∃ w' converted failed,
    main disk_full key_order (boot legacy_tree) = (Ok tt, w') ∧
    last (stdout w') = Some (summary converted failed 1) ∧
    (converted + failed = 1)%nat.
Proof.
  destruct (errors_are_contained disk_full key_order) as (_ & _ & Hrun).
  destruct (Hrun legacy_tree) as (w' & Hmain & Hsummary & _).
  assert (candidates disk_full key_order legacy_tree = [hello]) as Hcandidates.
  { by vm_compute. }
  rewrite Hcandidates in Hsummary.
  destruct Hsummary as (converted & failed & Hlast & Hsum); [discriminate|].
  exists w', converted, failed.
  split_and!; [exact Hmain | exact Hlast | exact Hsum].
Defined.

(** C8 as stated does not hold: on an empty tree no summary reporting zero
    converted and zero failed is printed. *)
Lemma empty_run_prints_no_summary :
  ¬ ∀ env listing fs,
      faithful listing →
      (∀ p c, fs !! p = Some c → in_examples p = true → is_lua p = true →
              ¬ occurs_in (str "TaskDefinition") c ∧
              ¬ occurs_in (str "task_definition") c) →
      summary 0 0 0 ∈ stdout (main env listing (boot fs)).2.
Proof.
  intros Hclaim.
  specialize (Hclaim calm key_order ∅ key_order_faithful).
  apply list_elem_of_In in Hclaim.
  - vm_compute in Hclaim. sift Hclaim.
  - intros p c Hp. by rewrite lookup_empty in Hp.
Qed.

(** C8 at work, on a tree whose only script is modern. *)
Lemma empty_run_witness :
  ∃ w' warnings,
    main calm key_order (boot modern_tree) = (Ok tt, w') ∧
    files w' = modern_tree ∧
    stdout w' = [line_start] ++ warnings ++ [line_found 0; line_nothing].
Proof.
  destruct (empty_run calm key_order modern_tree)
    as (w' & warnings & Hmain & Hfiles & _ & Hout & _).
  - intros p c Hp Hin Hlua. unfold modern_tree in Hp.
    apply lookup_insert_Some in Hp as [[<- <-] | [_ Hp]].
    + split; apply contains_false; by vm_compute.
    + apply lookup_singleton_Some in Hp as [<- <-].
      vm_compute in Hin. discriminate Hin.
  - exists w', warnings. split_and!; [exact Hmain | exact Hfiles | exact Hout].
Defined.





(** * Further properties *)

(** ** The description search *)

(** X1.  The description search returns [X] exactly when the leftmost
    match of the pattern captures [X], and nothing exactly when the
    pattern matches nowhere; what it returns is never empty, holds neither
    quote character and is a piece of the text searched. *)
Theorem description_search_characterised s :
  (∀ X, search_description s = Some X ↔ ∃ before, first_description s before X) ∧
  (search_description s = None ↔ no_description s) ∧
  (∀ X, search_description s = Some X →
        X ≠ [] ∧ Forall (λ c, is_quote c = false) X ∧ occurs_in X s).
Proof.
  split_and!.
  - intros X. split; [apply search_description_sound|].
    intros [before Hfirst]. by apply (search_description_first s before).
  - split; [apply search_description_none_sound | apply search_description_none].
  - intros X (before & after & -> & Hmatch & _)%search_description_sound.
    destruct Hmatch as (ws1 & ws2 & q1 & q2 & rest & -> & _ & _ & _ & _ & Hne & Hrun).
    split_and!; [done | done |].
    exists (before ++ str "description" ++ ws1 ++ [61] ++ ws2 ++ [q1]), ([q2] ++ rest).
    by rewrite <- !app_assoc.
Qed.

(** ** Names taken from the path *)

Section PathNames.

Implicit Types (s a b dir base name : text) (c sep : N).

Lemma split_on_cons sep s : ∃ seg segs, split_on sep s = seg :: segs.
Proof.
  destruct s as [|c s]; simpl; [eauto|].
  destruct (c =? sep); [eauto|]. destruct (split_on sep s); eauto.
Qed.

(** [(a + sep + b).split(sep) = a.split(sep) + b.split(sep)] *)
Lemma split_on_app sep a b :
  split_on sep (a ++ sep :: b) = split_on sep a ++ split_on sep b.
Proof.
  induction a as [|c a IH]; cbn [app split_on].
  - by rewrite N.eqb_refl.
  - destruct (c =? sep); [by rewrite IH|].
    rewrite IH. destruct (split_on_cons sep a) as (seg & segs & ->). done.
Qed.

(** A string without the separator is its own only piece. *)
Lemma split_on_whole sep s : sep ∉ s → split_on sep s = [s].
Proof.
  induction s as [|c s IH]; intros Hs; [done|].
  apply not_elem_of_cons in Hs as [Hc Hs]. cbn [split_on].
  destruct (N.eqb_spec c sep) as [->|_]; [done|]. by rewrite IH.
Qed.

(** [(a + c + b).rfind(c)] when [c] does not occur in [b]. *)
Lemma rfind_last c a b : c ∉ b → rfind c (a ++ c :: b) = Some (length a).
Proof.
  intros Hb.
  assert (rfind c b = None) as Hnone.
  { induction b as [|d b IH]; [done|].
    apply not_elem_of_cons in Hb as [Hd Hb]. cbn [rfind]. rewrite IH by done.
    by destruct (N.eqb_spec d c) as [->|_]. }
  induction a as [|d a IH]; cbn [app rfind length].
  - by rewrite Hnone, N.eqb_refl.
  - by rewrite IH.
Qed.

(** The final component of [dir/name], for a proper [name]. *)
Lemma path_name_join dir name :
  47 ∉ name → name ≠ [] → name ≠ str "." →
  path_name (dir ++ 47 :: name) = name.
Proof.
  intros Hslash Hne Hdot. unfold path_name, path_parts.
  rewrite split_on_app, (split_on_whole 47 name) by done.
  rewrite filter_app, filter_cons_True, filter_nil by done.
  by rewrite last_snoc.
Qed.

(** X2.  For a script [dir/base.lua] whose [base] is not made of dots
    only, the name is [base.lua] and the stem is [base], dots inside
    [base] included; the
    rendered template then declares the task [base_task] and the workflow
    [base_workflow], tags the workflow with [base], and names
    [base.lua.backup] as the backup.  For the hidden file [dir/.lua] the
    stem is the whole name [.lua]. *)
Theorem names_from_the_path dir base original :
  47 ∉ base →
  let p := dir ++ 47 :: base ++ str ".lua" in
  let rendered := create_modern_dsl_template p original in
  (Exists (λ c, c ≠ 46) base →
     path_name p = base ++ str ".lua" ∧
     path_stem p = base ∧
     occurs_in (str "local main_task = task(" ++ [dq] ++ base ++ str "_task" ++
                [dq] ++ str ")" ++ [nl]) rendered ∧
     occurs_in (str "workflow.define(" ++ [dq] ++ base ++ str "_workflow" ++
                [dq] ++ str ", {" ++ [nl]) rendered ∧
     occurs_in (str "        tags = {" ++ [dq] ++ base ++ [dq] ++ str ", " ++
                [dq] ++ str "modern-dsl" ++ [dq] ++ str ", " ++
                [dq] ++ (classify p).1 ++ [dq] ++ str "}," ++ [nl]) rendered ∧
     occurs_in (str "-- Original backup saved as " ++ base ++
                str ".lua.backup" ++ [nl]) rendered) ∧
  (base = [] → path_name p = str ".lua" ∧ path_stem p = str ".lua").
Proof.
  intros Hslash p rendered. subst rendered.
  assert (47 ∉ base ++ str ".lua") as Hslash'.
  { rewrite not_elem_of_app. split; [done|].
    intros Hin%list_elem_of_In. vm_compute in Hin. sift Hin. }
  assert (base ++ str ".lua" ≠ []) as Hne.
  { intros [_ Heq]%app_eq_nil. discriminate Heq. }
  assert (base ++ str ".lua" ≠ str ".") as Hdot.
  { intros Heq%(f_equal length). rewrite length_app in Heq.
    vm_compute (length (str ".lua")) in Heq. vm_compute (length (str ".")) in Heq. lia. }
  assert (path_name p = base ++ str ".lua") as Hname.
  { by apply path_name_join. }
  split.
  - intros Hdots.
    assert (base ≠ []) as Hbase.
    { intros ->. by apply Exists_nil in Hdots. }
    assert (path_stem p = base) as Hstem.
    { unfold path_stem. rewrite Hname.
      change (base ++ str ".lua") with (base ++ 46 :: str "lua").
      rewrite rfind_last.
      2: { intros Hin%list_elem_of_In. vm_compute in Hin. sift Hin. }
      rewrite length_app. cbn [length].
      destruct base as [|c base]; [done|]. cbn [length].
      replace (0 <? S (length base))%nat with true by (symmetry; by apply Nat.ltb_lt; lia).
      replace (S (length base) <? S (length base) + S (length (str "lua")) - 1)%nat
        with true.
      2: { symmetry. apply Nat.ltb_lt. vm_compute (length (str "lua")). lia. }
      cbn [andb]. change (S (length base)) with (length (c :: base)).
      by rewrite take_app_length. }
    split_and!; [done | done | | | |].
    + pose proof (template_line p original 5 _ eq_refl) as H.
      rewrite Hstem in H. by rewrite <- !app_assoc in H.
    + pose proof (template_line p original 40 _ eq_refl) as H.
      rewrite Hstem in H. by rewrite <- !app_assoc in H.
    + pose proof (template_line p original 48 _ eq_refl) as H.
      rewrite Hstem in H. by rewrite <- !app_assoc in H.
    + pose proof (template_line p original 83 _ eq_refl) as H.
      rewrite Hname in H. by rewrite <- !app_assoc in H.
  - intros ->. split; [done|]. unfold path_stem. by rewrite Hname.
Qed.

End PathNames.

(** ** The detector *)

Section Detector.

Variable env : world → op → option fault.
Variable listing : gmap path text → list path.

Implicit Types (p q : path) (w : world) (c : text) (fs : gmap path text).

(** X3.  The detector's list holds no file twice and follows the order of
    the directory walk.  Every file on it is a [.lua] file below
    [examples] whose content holds [TaskDefinition] or [task_definition];
    conversely every such file is on it, provided it can be read. *)
Theorem detector_characterisation fs :
  faithful listing →
  NoDup (candidates env listing fs) ∧
  candidates env listing fs
    `sublist_of` filter (λ p, in_examples p && is_lua p) (listing fs) ∧
  (∀ p, p ∈ candidates env listing fs →
        in_examples p = true ∧ is_lua p = true ∧
        ∃ c, fs !! p = Some c ∧
             (occurs_in (str "TaskDefinition") c ∨
              occurs_in (str "task_definition") c)) ∧
  (∀ p c, fs !! p = Some c → in_examples p = true → is_lua p = true →
          occurs_in (str "TaskDefinition") c ∨
          occurs_in (str "task_definition") c →
          (∀ w, env w (OpRead p) = None) →
          p ∈ candidates env listing fs).
Proof.
  intros Hfaithful. split_and!.
  - by apply candidates_NoDup.
  - by destruct (candidates_eq env listing fs) as (w1 & _ & _ & Hsub).
  - intros p Hp.
    pose proof (candidates_sound env listing fs) as Hsound.
    rewrite Forall_forall in Hsound.
    destruct (Hsound p Hp) as (Hin & Hlua & c & Hc & Hlegacy).
    split_and!; [done | done |]. exists c. split; [done|].
    apply is_legacy_spec. by rewrite <- is_legacy_universal_newlines.
  - intros p c Hc Hin Hlua Hmarker Hread.
    apply (candidates_complete env listing fs p c); try done.
    rewrite is_legacy_universal_newlines. by apply is_legacy_spec.
Qed.





End Detector.

(** ** What a run leaves behind *)

Section Aftermath.

Variable env : world → op → option fault.
Variable listing : gmap path text → list path.

Implicit Types (p q r : path) (w : world) (c : text) (fs : gmap path text).









(** X12.  Whatever is at the backup path: when a call of the converter
    on a file that does not pass the skip test returns [True], the text
    the file had is afterwards where [shutil.copy2] puts it, at the backup
    path or, if that is a directory, in the file of the same name inside
    it, and the file holds the template rendered from that text. *)
Theorem converted_text_is_kept p w w' c :
  files w !! p = Some c →
  already_modern (universal_newlines c) = false →
  convert_file_to_modern_dsl env p w = (Ok true, w') →
  files w' !! landing (files w) p (backup_of p) = Some c ∧
  files w' !! p =
    Some (create_modern_dsl_template p (universal_newlines c)) ∧
  stdout w' = stdout w ++ [line_converted p].
Proof.
  intros Hp Hm Hrun.
  destruct (convert_footprint env p w)
    as (b & w1 & t & line & Hrun' & _ & Hout & _ & _ & Hcase).
  rewrite Hrun in Hrun'. injection Hrun' as <- <-.
  destruct Hcase as [(_ & -> & c' & Hc' & _ & Hbackup & Hnew & _) |
                     [(_ & _ & _ & _ & c' & Hc' & Hm') | (Hb & _)]];
    [|congruence|discriminate Hb].
  rewrite Hp in Hc'. injection Hc' as <-. done.
Qed.

End Aftermath.

(** ** The counters *)

Section Counters.

Variable env : world → op → option fault.
Variable listing : gmap path text → list path.

Implicit Types (p q : path) (w : world) (c : text) (fs : gmap path text).

Lemma count_headed_app glyph (l1 l2 : list text) :
  count_headed glyph (l1 ++ l2) =
    (count_headed glyph l1 + count_headed glyph l2)%nat.
Proof. unfold count_headed. by rewrite filter_app, length_app. Qed.

Lemma count_headed_none glyph (lines : list text) :
  Forall (λ l, headed glyph l = false) lines → count_headed glyph lines = 0%nat.
Proof.
  unfold count_headed. induction 1 as [|l lines Hl _ IH]; [done|].
  rewrite filter_cons_False; [done|]. intros H%Is_true_true. congruence.
Qed.

Lemma count_headed_single glyph (line : text) :
  count_headed glyph [line] = if headed glyph line then 1%nat else 0%nat.
Proof.
  unfold count_headed. destruct (headed glyph line) eqn:Hl.
  - rewrite filter_cons_True; [done|]. by apply Is_true_true.
  - rewrite filter_cons_False; [done|]. intros H%Is_true_true. congruence.
Qed.

(** Compare the glyphs at the head of two kinds of console line. *)
Local Ltac decide_glyphs :=
  repeat match goal with
         | |- context [?a =? ?b] =>
             let v := eval vm_compute in (a =? b) in change (a =? b) with v
         end.

(** The conversion loop adds one to [failed] for every error line it
    prints and one to [converted] for every other line. *)
Lemma tally_loop_counts ps : ∀ converted failed w,
  ∃ converted' failed' w' lines,
    for_each ps (tally env) (converted, failed) w = (Ok (converted', failed'), w') ∧
    stdout w' = stdout w ++ lines ∧
    failed' = (failed + count_headed cross_mark lines)%nat ∧
    converted' =
      (converted + count_headed arrows lines + count_headed check_mark lines)%nat.
Proof.
  induction ps as [|p ps IH]; intros converted failed w.
  - exists converted, failed, w, []. rewrite app_nil_r.
    split_and!; [done | done | by rewrite Nat.add_0_r | by rewrite !Nat.add_0_r].
  - destruct (convert_footprint env p w)
      as (b & w1 & t1 & line & Hrun & _ & Ho1 & _ & _ & Hcase).
    assert (∃ c1 f1 : nat,
      tally env p (converted, failed) w = (Ok (c1, f1), w1) ∧
      f1 = (failed + count_headed cross_mark [line])%nat ∧
      c1 = (converted + count_headed arrows [line] +
            count_headed check_mark [line])%nat)
      as (c1 & f1 & Hstep & Hf1 & Hc1).
    { rewrite tally_eq, Hrun, !count_headed_single.
      destruct Hcase as [(-> & -> & _) | [(-> & -> & _) | (-> & [msg] & _ & _ & -> & _)]];
        eexists _, _; (split; [reflexivity|]);
        unfold line_converted, line_already_modern, line_error;
        cbn [app headed]; decide_glyphs; cbv iota; lia. }
    destruct (IH c1 f1 w1) as (c2 & f2 & w2 & lines & Hloop & Ho2 & Hf2 & Hc2).
    exists c2, f2, w2, ([line] ++ lines). split_and!.
    + cbn [for_each]. unfold mbind, M_bind at 1. by rewrite Hstep.
    + by rewrite Ho2, Ho1, <- app_assoc.
    + rewrite count_headed_app. lia.
    + rewrite !count_headed_app. lia.
Qed.

(** X8.  When there are candidates, the summary's failed count is the
    number of calls of [print] whose text begins with the error glyph,
    which are the reports of a failed conversion, and its converted count
    is the number of those that report a conversion plus the number of
    those that begin with the check mark, which report a file as already
    modern: a skipped file counts as converted.  The summary itself is one
    call of [print], whose text begins with a line feed, so that the
    glyphs in front of its own two counts are not among those counted. *)
Theorem summary_counts_the_reports fs :
  candidates env listing fs ≠ [] →
  ∃ w' converted failed,
    main env listing (boot fs) = (Ok tt, w') ∧
    last (stdout w') =
      Some (summary converted failed (length (candidates env listing fs))) ∧
    failed = count_headed cross_mark (stdout w') ∧
    converted =
      (count_headed arrows (stdout w') + count_headed check_mark (stdout w'))%nat.
Proof.
  intros Hsome.
  destruct (candidates_eq env listing fs)
    as (w1 & Hscan & (_ & t & warnings & _ & _ & Hout1 & Hwarn) & _).
  cbn [stdout say boot app] in Hout1.
  rewrite main_eq. cbn [files boot]. rewrite Hscan.
  destruct (candidates env listing fs) as [|p ps]; [done|].
  destruct (tally_loop_counts (p :: ps) 0 0 (say (line_found (length (p :: ps))) w1))
    as (converted & failed & w2 & lines & -> & Hout2 & -> & ->).
  cbn [stdout say] in Hout2.
  eexists _, _, _. split; [reflexivity|]. cbn [stdout say].
  split; [by rewrite last_snoc|].
  assert (∀ glyph,
    glyph = cross_mark ∨ glyph = arrows ∨ glyph = check_mark →
    count_headed glyph
      (stdout w2 ++ [summary (0 + count_headed arrows lines +
                              count_headed check_mark lines)
                       (0 + count_headed cross_mark lines) (length (p :: ps))]) =
    count_headed glyph lines) as Hcount.
  { intros glyph Hglyph. rewrite Hout2, Hout1.
    change (line_start :: warnings) with ([line_start] ++ warnings).
    rewrite !count_headed_app, (count_headed_none glyph warnings).
    2: { eapply Forall_impl; [exact Hwarn|]. intros l (q & [msg] & ->).
         unfold line_read_error, warning_sign. cbn [app headed].
         destruct Hglyph as [-> | [-> | ->]]; reflexivity. }
    rewrite !count_headed_single.
    unfold line_start, line_found, summary, unlines. cbn [flat_map app headed].
    destruct Hglyph as [-> | [-> | ->]]; decide_glyphs; cbv iota; lia. }
  rewrite !Hcount by auto. lia.
Qed.

(** X9.  When there are candidates the console holds, in this order: the
    opening line, the warnings of the scan, the number of candidates, one
    report per candidate in the detector's order, and the summary. *)
Theorem console_layout fs :
  candidates env listing fs ≠ [] →
  ∃ w' warnings reports converted failed,
    main env listing (boot fs) = (Ok tt, w') ∧
    stdout w' =
      [line_start] ++ warnings ++
      [line_found (length (candidates env listing fs))] ++ reports ++
      [summary converted failed (length (candidates env listing fs))] ∧
    Forall (λ l, ∃ p e, l = line_read_error p e) warnings ∧
    Forall2 about (candidates env listing fs) reports.
Proof.
  intros Hsome.
  destruct (run_anatomy env listing fs)
    as (w' & scans & warnings & Hmain & _ & Hwarn & Hcase).
  destruct Hcase as [(Hnone & _) |
    (_ & converted & failed & t & reports & _ & Hout & _ & Habout & _)]; [done|].
  by exists w', warnings, reports, converted, failed.
Qed.

(** A candidate that passes the skip test is never written to. *)
Lemma tally_loop_modern ps : ∀ converted failed w,
  (∀ p, p ∈ ps → ∃ c, files w !! p = Some c ∧
                      already_modern (universal_newlines c) = true) →
  ∃ converted' failed' w' t,
    for_each ps (tally env) (converted, failed) w = (Ok (converted', failed'), w') ∧
    files w' = files w ∧
    trace w' = trace w ++ t ∧ Forall (λ e, target e = None) t ∧
    ((∀ w0 p, env w0 (OpRead p) = None) →
     converted' = (converted + length ps)%nat ∧ failed' = failed).
Proof.
  induction ps as [|p ps IH]; intros converted failed w Hmodern.
  - exists converted, failed, w, []. rewrite app_nil_r.
    split_and!; [done | done | done | done |]. intros _. simpl. lia.
  - destruct (Hmodern p) as (c & Hc & Hm); [by left|].
    assert (∃ (c1 f1 : nat) w1 e,
      tally env p (converted, failed) w = (Ok (c1, f1), w1) ∧
      files w1 = files w ∧ trace w1 = trace w ++ [e] ∧ target e = None ∧
      (env w (OpRead p) = None → c1 = (converted + 1)%nat ∧ f1 = failed))
      as (c1 & f1 & w1 & e & Hstep & Hfiles & Htrace & He & Hcount).
    { rewrite tally_eq. destruct (env w (OpRead p)) as [f|] eqn:Hr.
      - rewrite (convert_read_fault env p w c f) by done.
        by eexists _, _, _, (Failed (OpRead p)).
      - rewrite (convert_skip env p w c) by done.
        by eexists _, _, _, (Done (OpRead p)). }
    destruct (IH c1 f1 w1) as (c2 & f2 & w2 & t & Hloop & Hfiles2 & Htrace2 & Ht & Hcount2).
    { intros q Hq. rewrite Hfiles. apply Hmodern. by right. }
    exists c2, f2, w2, ([e] ++ t). split_and!.
    + cbn [for_each]. unfold mbind, M_bind at 1. by rewrite Hstep.
    + congruence.
    + by rewrite Htrace2, Htrace, <- app_assoc.
    + apply Forall_app. split; [by apply Forall_singleton | done].
    + intros Hread. destruct (Hcount (Hread _ _)) as [-> ->].
      destruct (Hcount2 Hread) as [-> ->]. simpl. lia.
Qed.

(** X10.  On a tree where no [.lua] file below [examples] contains
    [TaskDefinition] and every one that contains [task_definition] also
    contains [task(], a run changes no file and attempts no copy and no
    write, whatever fails; when every read succeeds, all candidates are
    counted as converted and none as failed. *)
Theorem modern_candidates_are_left_alone fs :
  (∀ p c, fs !! p = Some c → in_examples p = true → is_lua p = true →
          ¬ occurs_in (str "TaskDefinition") c ∧
          (occurs_in (str "task_definition") c → occurs_in (str "task(") c)) →
  ∃ w',
    main env listing (boot fs) = (Ok tt, w') ∧
    files w' = fs ∧
    Forall (λ e, target e = None) (trace w') ∧
    ((∀ w p, env w (OpRead p) = None) →
     candidates env listing fs ≠ [] →
     last (stdout w') =
       Some (summary (length (candidates env listing fs)) 0
               (length (candidates env listing fs)))).
Proof.
  intros Htree.
  destruct (candidates_eq env listing fs)
    as (w1 & Hscan & (Hfiles & scans & warnings & Htrace & Hscans & _) & _).
  cbn [files trace say boot app] in Hfiles, Htrace.
  pose proof (candidates_sound env listing fs) as Hsound.
  rewrite Forall_forall in Hsound.
  rewrite main_eq. cbn [files boot]. rewrite Hscan.
  destruct (candidates env listing fs) as [|p ps] eqn:Hps.
  - eexists. split; [reflexivity|]. cbn [files trace say].
    split_and!; [done | by rewrite Htrace | done].
  - destruct (tally_loop_modern (p :: ps) 0 0
                (say (line_found (length (p :: ps))) w1))
      as (converted & failed & w2 & t & -> & Hfiles2 & Htrace2 & Ht & Hcount).
    { intros q Hq. cbn [files say]. rewrite Hfiles.
      destruct (Hsound q Hq) as (Hin & Hlua & c & Hc & Hlegacy).
      exists c. split; [done|].
      rewrite is_legacy_universal_newlines in Hlegacy.
      apply is_legacy_spec in Hlegacy.
      destruct (Htree q c Hc Hin Hlua) as [Hno Htask].
      rewrite already_modern_universal_newlines. apply already_modern_spec.
      split; [|done]. destruct Hlegacy; [done | auto]. }
    cbn [files trace say] in Hfiles2, Htrace2.
    eexists. split; [reflexivity|]. cbn [files trace stdout say].
    split_and!.
    + congruence.
    + rewrite Htrace2, Htrace. by apply Forall_app.
    + intros Hread _. destruct (Hcount Hread) as [-> ->].
      by rewrite last_snoc.
Qed.

End Counters.

(** ** The further properties at work *)

(** X1 at work on the legacy sample. *)
Lemma description_search_witness :
  ∃ before, first_description legacy_text before (str "Say hello").
Proof.
  apply (description_search_characterised legacy_text). by vm_compute.
Defined.

(** X2 at work on the sample script. *)
Lemma names_from_the_path_witness :
  path_name (str "examples/beginner" ++ 47 :: str "hello" ++ str ".lua") =
    str "hello.lua" ∧
  path_stem (str "examples/beginner" ++ 47 :: str "hello" ++ str ".lua") =
    str "hello".
Proof.
  destruct (names_from_the_path (str "examples/beginner") (str "hello") [])
    as [Hnames _].
  - intros Hin%list_elem_of_In. vm_compute in Hin. sift Hin.
  - destruct Hnames as (Hname & Hstem & _).
    + apply Exists_cons_hd. by vm_compute.
    + split; [exact Hname | exact Hstem].
Defined.

(** X3 at work: of the three files of the crowded tree, the detector
    selects the legacy script below [examples]. *)
Lemma detector_witness : hello ∈ candidates calm key_order crowded_tree.
Proof.
  destruct (detector_characterisation calm key_order crowded_tree
              key_order_faithful) as (_ & _ & _ & Hcomplete).
  apply (Hcomplete hello legacy_text).
  - by vm_compute.
  - by vm_compute.
  - by vm_compute.
  - left. apply contains_spec. by vm_compute.
  - intros w. reflexivity.
Defined.





(** The condition of X7 is needed.  In [twin_tree] the backup copy of
    [outer] goes to [inner].  A first run converts both files.  In a
    second run the copy of [outer] stops after the first 28 characters,
    which hold the task marker and not yet the name of the legacy format,
    and [inner], found with this text, is reported as already modern. *)
Lemma partial_copy_passes_the_skip_test :
  line_converted inner ∈ stdout (first_run twin_tree) ∧
  inner ∈ candidates cut_short key_order (files (first_run twin_tree)) ∧
  line_already_modern inner ∈
    stdout (main cut_short key_order (boot (files (first_run twin_tree)))).2 ∧
  files (main cut_short key_order (boot (files (first_run twin_tree)))).2 !! inner =
    Some (str "-- MODERN DSL ONLY - task(1)").
Proof.
  split_and!.
  - apply (list_elem_of_lookup_2 _ 3%nat). by vm_compute.
  - apply (list_elem_of_lookup_2 _ 1%nat). by vm_compute.
  - apply (list_elem_of_lookup_2 _ 3%nat). by vm_compute.
  - by vm_compute.
Qed.


(** X12 at work: the backup path is a directory, the text of the script
    is kept inside it. *)
Lemma converted_text_witness :
  files (convert_file_to_modern_dsl calm hello (boot directory_tree)).2
    !! (backup_of hello ++ str "/hello.lua") = Some legacy_text.
Proof.
  destruct (converted_text_is_kept calm hello (boot directory_tree)
              (convert_file_to_modern_dsl calm hello (boot directory_tree)).2
              legacy_text) as [Hkept _].
  - by vm_compute.
  - by vm_compute.
  - by vm_compute.
  - assert (landing (files (boot directory_tree)) hello (backup_of hello) =
            backup_of hello ++ str "/hello.lua") as <-; [by vm_compute|].
    exact Hkept.
Defined.

(** X8 at work, with a full disk: one failed conversion, one failure. *)
Lemma summary_counts_witness :
  ∃ w' converted failed,
    main disk_full key_order (boot legacy_tree) = (Ok tt, w') ∧
    failed = count_headed cross_mark (stdout w') ∧
    converted =
      (count_headed arrows (stdout w') + count_headed check_mark (stdout w'))%nat.
Proof.
  destruct (summary_counts_the_reports disk_full key_order legacy_tree)
    as (w' & converted & failed & Hmain & _ & Hfailed & Hconverted).
  - assert (candidates disk_full key_order legacy_tree = [hello]) as ->.
    { by vm_compute. }
    discriminate.
  - exists w', converted, failed.
    split_and!; [exact Hmain | exact Hfailed | exact Hconverted].
Defined.

(** X10 at work on the tree whose only candidate is already modern. *)
Lemma modern_candidates_witness :
  ∃ w',
    main calm key_order (boot mixed_tree) = (Ok tt, w') ∧ files w' = mixed_tree.
Proof.
  destruct (modern_candidates_are_left_alone calm key_order mixed_tree)
    as (w' & Hmain & Hfiles & _).
  - intros p c Hp _ _. unfold mixed_tree in Hp.
    apply lookup_singleton_Some in Hp as [<- <-]. split.
    + apply contains_false. by vm_compute.
    + intros _. apply contains_spec. by vm_compute.
  - exists w'. split; [exact Hmain | exact Hfiles].
Defined.

(** X9 at work on the legacy sample. *)
Lemma console_layout_witness :
  ∃ w' warnings reports converted failed,
    main calm key_order (boot legacy_tree) = (Ok tt, w') ∧
    stdout w' =
      [line_start] ++ warnings ++ [line_found 1] ++ reports ++
      [summary converted failed 1] ∧
    Forall2 about [hello] reports.
Proof.
  assert (candidates calm key_order legacy_tree = [hello]) as Hcandidates.
  { by vm_compute. }
  destruct (console_layout calm key_order legacy_tree)
    as (w' & warnings & reports & converted & failed & Hmain & Hout & _ & Habout).
  - rewrite Hcandidates. discriminate.
  - rewrite Hcandidates in Hout, Habout.
    exists w', warnings, reports, converted, failed.
    split_and!; [exact Hmain | exact Hout | exact Habout].
Defined.
